(** * maglev: the block-trip scheduling index

    A shallow embedding of the schedule queries of [gtfsdb/query.sql]
    (service calendar resolution, active-trip matching, schedule windows)
    and of the block-trip index rebuild that drives them.

    Tables are lists of rows in storage order; a query is the list
    comprehension its SQL text denotes: [FROM]/[JOIN] are nested scans,
    [WHERE] is a filter, [ORDER BY] a sort that leaves rows with equal
    keys in scan order (SQL leaves their order open) and [LIMIT] a
    prefix.  Times are integer seconds, dates are [YYYYMMDD]
    text, nullable columns are options. *)

From Stdlib Require Import ZArith List String Ascii Bool Lia.
From Stdlib Require Import Sorting.Sorted Sorting.Permutation.
Import ListNotations.

Local Open Scope string_scope.
Local Open Scope list_scope.
Local Open Scope Z_scope.

(* ================================================================= *)
(** ** SQL building blocks *)

Module Sql.

(** [x IN (sqlc.slice(...))] on text. *)
Definition in_slice (x : string) (xs : list string) : bool :=
  existsb (String.eqb x) xs.

(** [x IN (...)] on integers. *)
Definition in_ints (x : Z) (xs : list Z) : bool :=
  existsb (Z.eqb x) xs.

(** [col = param] where both sides may be NULL: NULL never compares
    equal, so the row is kept only when both are present and equal. *)
Definition eq_null (a b : option string) : bool :=
  match a, b with
  | Some x, Some y => String.eqb x y
  | _, _ => false
  end.

(** [col = (scalar subquery)] on integers; an empty subquery is NULL. *)
Definition eq_scalar (a : Z) (b : option Z) : bool :=
  match b with
  | Some y => Z.eqb a y
  | None => false
  end.

(** [x BETWEEN lo AND hi]. *)
Definition between (x lo hi : Z) : bool :=
  (lo <=? x) && (x <=? hi).

(** [MIN(...)] and [MAX(...)] over a column; NULL on no rows. *)
Definition agg_min (xs : list Z) : option Z :=
  match xs with
  | [] => None
  | x :: r => Some (fold_left Z.min r x)
  end.

Definition agg_max (xs : list Z) : option Z :=
  match xs with
  | [] => None
  | x :: r => Some (fold_left Z.max r x)
  end.

(** [SELECT DISTINCT]. *)
Definition distinct (xs : list string) : list string :=
  nodup string_dec xs.

(** [q1 UNION q2]: the rows of both, without duplicates. *)
Definition union (xs ys : list string) : list string :=
  distinct (xs ++ ys).

(** [LIMIT n]. *)
Definition limit {A} (n : nat) (rows : list A) : list A :=
  firstn n rows.

(** A [:one] query yields its first row, or no row at all
    ([sql.ErrNoRows] on the Go side). *)
Definition one {A} (rows : list A) : option A :=
  match rows with
  | [] => None
  | r :: _ => Some r
  end.

(** [ORDER BY key]: rows are put in key order; rows with equal keys
    keep the order in which the scan produced them. *)
Section OrderBy.
Context {A K : Type}.
Variable leb : K -> K -> bool.
Variable key : A -> K.

Fixpoint place (x : A) (sorted : list A) : list A :=
  match sorted with
  | [] => [x]
  | y :: r => if leb (key x) (key y) then x :: sorted
              else y :: place x r
  end.

Definition order_by (rows : list A) : list A :=
  fold_right place [] rows.
End OrderBy.

(** [ORDER BY col] / [ORDER BY col DESC] on an integer column. *)
Definition asc {A} (col : A -> Z) := order_by Z.leb col.
Definition desc {A} (col : A -> Z) := order_by Z.geb col.

(** NULL sorts before every value, as in SQLite. *)
Definition null_first_leb (a b : option Z) : bool :=
  match a, b with
  | None, _ => true
  | Some _, None => false
  | Some x, Some y => x <=? y
  end.

End Sql.

(* ================================================================= *)
(** ** Schema: the columns the schedule core reads and writes *)

Module Trip.
Record t := mk {
  id : string;
  route_id : string;
  service_id : string;
  trip_headsign : option string;
  block_id : option string
}.
End Trip.

Module StopTime.
Record t := mk {
  trip_id : string;
  arrival_time : Z;
  departure_time : Z;
  stop_id : string;
  stop_sequence : Z;
  stop_headsign : option string
}.
End StopTime.

Module Route.
Record t := mk {
  id : string;
  agency_id : string;
  short_name : option string;
  long_name : option string
}.
End Route.

Module Calendar.
Record t := mk {
  id : string;
  monday : Z;
  tuesday : Z;
  wednesday : Z;
  thursday : Z;
  friday : Z;
  saturday : Z;
  sunday : Z;
  start_date : string;
  end_date : string
}.
End Calendar.

Module CalendarDate.
Record t := mk {
  service_id : string;
  date : string;
  exception_type : Z
}.

(** GTFS exception types. *)
Definition added : Z := 1.
Definition removed : Z := 2.
End CalendarDate.

Module BlockTripIndex.
Record t := mk {
  id : Z;
  index_key : string;
  service_ids : string;
  stop_sequence_key : string;
  created_at : Z
}.
End BlockTripIndex.

Module BlockTripEntry.
Record t := mk {
  block_trip_index_id : Z;
  trip_id : string;
  block_id : option string;
  service_id : string;
  block_trip_sequence : Z
}.
End BlockTripEntry.

(** The store.  [index_seq] is the last id the store generated for
    [block_trip_index]. *)
Record DB := mkDB {
  trips : list Trip.t;
  stop_times : list StopTime.t;
  routes : list Route.t;
  calendar : list Calendar.t;
  calendar_dates : list CalendarDate.t;
  block_trip_index : list BlockTripIndex.t;
  block_trip_entry : list BlockTripEntry.t;
  index_seq : Z
}.

(* ================================================================= *)
(** ** ServiceCalendarResolver: [GetActiveServiceIDsForDate] *)

Module Resolver.

(** *** SQLite's [STRFTIME('%w', 'YYYY-MM-DD')] *)

Definition digit (c : ascii) : option Z :=
  let n := Z.of_nat (nat_of_ascii c) in
  if (48 <=? n) && (n <=? 57) then Some (n - 48) else None.

Fixpoint digits (s : string) (acc : Z) : option Z :=
  match s with
  | EmptyString => Some acc
  | String c r =>
      match digit c with
      | Some d => digits r (10 * acc + d)
      | None => None
      end
  end.

(** A field of exactly [n] decimal digits starting at offset [off]. *)
Definition field (off n : nat) (s : string) : option Z :=
  let f := substring off n s in
  if Nat.eqb (String.length f) n then digits f 0 else None.

(** The date text is accepted when it reads [YYYY-MM-DD] with a month
    in 1..12 and a day in 1..31; anything else makes [STRFTIME] NULL. *)
Definition parse_ymd (iso : string) : option (Z * Z * Z) :=
  match field 0 4 iso, field 5 2 iso, field 8 2 iso with
  | Some y, Some m, Some d =>
      if String.eqb (substring 4 1 iso) "-"
         && String.eqb (substring 7 1 iso) "-"
         && Nat.eqb (String.length iso) 10
         && (1 <=? m) && (m <=? 12) && (1 <=? d) && (d <=? 31)
      then Some (y, m, d) else None
  | _, _, _ => None
  end.

(** Day of week, 0 = Sunday, from the Julian day number: SQLite's
    [computeJD] followed by [(iJD + 129600000) / 86400000 % 7]. *)
Definition day_of_week (y m d : Z) : Z :=
  let y' := if m <=? 2 then y - 1 else y in
  let m' := if m <=? 2 then m + 12 else m in
  let a := Z.quot (y' + 4800) 100 in
  let b := 38 - a + Z.quot a 4 in
  let x1 := Z.quot (36525 * (y' + 4716)) 100 in
  let x2 := Z.quot (306001 * (m' + 1)) 10000 in
  (x1 + x2 + d + b - 1523) mod 7.

Definition strftime_w (iso : string) : option Z :=
  match parse_ymd iso with
  | Some (y, m, d) => Some (day_of_week y m d)
  | None => None
  end.

(** [formatted_date]: the single-row CTE holding the weekday of [?1]. *)
Definition formatted_date (date : string) : option Z :=
  strftime_w (substring 0 4 date ++ "-" ++ substring 4 2 date
              ++ "-" ++ substring 6 2 date)%string.

(** [fd.weekday = 'k' AND c.<day> = 1]; a NULL weekday is never equal. *)
Definition runs_on (weekday : option Z) (k : Z) (flag : Z) : bool :=
  match weekday with
  | Some w => (w =? k) && (flag =? 1)
  | None => false
  end.

Definition weekday_flag_set (weekday : option Z) (c : Calendar.t) : bool :=
  runs_on weekday 0 (Calendar.sunday c)
  || runs_on weekday 1 (Calendar.monday c)
  || runs_on weekday 2 (Calendar.tuesday c)
  || runs_on weekday 3 (Calendar.wednesday c)
  || runs_on weekday 4 (Calendar.thursday c)
  || runs_on weekday 5 (Calendar.friday c)
  || runs_on weekday 6 (Calendar.saturday c).

(** [base_services]. *)
Definition base_services (db : DB) (date : string) : list string :=
  let fd := formatted_date date in
  map Calendar.id
    (filter (fun c =>
               String.leb (Calendar.start_date c) date
               && String.leb date (Calendar.end_date c)
               && weekday_flag_set fd c)
            (calendar db)).

(** [removed_services] and [added_services]. *)
Definition exceptions (db : DB) (date : string) (kind : Z) : list string :=
  map CalendarDate.service_id
    (filter (fun cd =>
               String.eqb (CalendarDate.date cd) date
               && (CalendarDate.exception_type cd =? kind))
            (calendar_dates db)).

Definition removed_services db date := exceptions db date CalendarDate.removed.
Definition added_services db date := exceptions db date CalendarDate.added.

(** The query: base services not removed, UNION added services. *)
Definition GetActiveServiceIDsForDate (db : DB) (date : string)
  : list string :=
  Sql.union
    (Sql.distinct
       (filter (fun s => negb (Sql.in_slice s (removed_services db date)))
               (base_services db date)))
    (Sql.distinct (added_services db date)).

(** [calendar_dates] is keyed by (service, date): at most one exception
    row per pair. *)
Definition calendar_dates_keyed (db : DB) : Prop :=
  forall r1 r2,
    In r1 (calendar_dates db) -> In r2 (calendar_dates db) ->
    CalendarDate.service_id r1 = CalendarDate.service_id r2 ->
    CalendarDate.date r1 = CalendarDate.date r2 ->
    r1 = r2.

End Resolver.

(* ================================================================= *)
(** ** ActiveTripMatcher *)

Module Matcher.

(** The stop events of one trip. *)
Definition stop_times_of (db : DB) (trip : string) : list StopTime.t :=
  filter (fun st => String.eqb (StopTime.trip_id st) trip) (stop_times db).

(** [SELECT MIN(stop_sequence) FROM stop_times WHERE trip_id = t.id]
    and its [MAX] twin. *)
Definition min_stop_sequence (db : DB) (trip : string) : option Z :=
  Sql.agg_min (map StopTime.stop_sequence (stop_times_of db trip)).

Definition max_stop_sequence (db : DB) (trip : string) : option Z :=
  Sql.agg_max (map StopTime.stop_sequence (stop_times_of db trip)).

(** [JOIN stop_times st_first ON t.id = st_first.trip_id
      AND st_first.stop_sequence = (SELECT MIN(stop_sequence) ...)]. *)
Definition st_first_rows (db : DB) (t : Trip.t) : list StopTime.t :=
  filter (fun st =>
            String.eqb (Trip.id t) (StopTime.trip_id st)
            && Sql.eq_scalar (StopTime.stop_sequence st)
                             (min_stop_sequence db (Trip.id t)))
         (stop_times db).

Definition st_last_rows (db : DB) (t : Trip.t) : list StopTime.t :=
  filter (fun st =>
            String.eqb (Trip.id t) (StopTime.trip_id st)
            && Sql.eq_scalar (StopTime.stop_sequence st)
                             (max_stop_sequence db (Trip.id t)))
         (stop_times db).

(** One row of [trips t JOIN st_first JOIN st_last]. *)
Record span := mkSpan {
  t : Trip.t;
  st_first : StopTime.t;
  st_last : StopTime.t
}.

Definition spans_of (db : DB) (tr : Trip.t) : list span :=
  flat_map (fun f => map (fun l => mkSpan tr f l) (st_last_rows db tr))
           (st_first_rows db tr).

Definition first_departure_time (r : span) : Z :=
  StopTime.departure_time (st_first r).

Definition last_arrival_time (r : span) : Z :=
  StopTime.arrival_time (st_last r).

(** *** [GetActiveTripInBlockAtTime :one] *)

Definition in_block_at (block_id : option string)
           (service_ids : list string) (current_time : Z) (r : span)
  : bool :=
  Sql.eq_null (Trip.block_id (t r)) block_id
  && Sql.in_slice (Trip.service_id (t r)) service_ids
  && (first_departure_time r <=? current_time)
  && (last_arrival_time r >=? current_time).

(** The rows that pass the [WHERE] clause, in scan order. *)
Definition block_hits (db : DB) (block_id : option string)
           (service_ids : list string) (current_time : Z) : list span :=
  filter (in_block_at block_id service_ids current_time)
         (flat_map (spans_of db) (trips db)).

Definition GetActiveTripInBlockAtTime (db : DB) (block_id : option string)
           (service_ids : list string) (current_time : Z)
  : option string :=
  option_map (fun r => Trip.id (t r))
    (Sql.one (Sql.limit 1
       (Sql.asc first_departure_time
                (block_hits db block_id service_ids current_time)))).

(** *** [GetActiveTripForRouteAtTime :one] *)

(** One row of [trips t JOIN block_trip_entry bte ON t.id = bte.trip_id
    JOIN st_first JOIN st_last]. *)
Definition entries_of (db : DB) (tr : Trip.t) : list BlockTripEntry.t :=
  filter (fun bte => String.eqb (Trip.id tr) (BlockTripEntry.trip_id bte))
         (block_trip_entry db).

Definition route_rows (db : DB) : list (BlockTripEntry.t * span) :=
  flat_map (fun tr =>
              flat_map (fun bte => map (pair bte) (spans_of db tr))
                       (entries_of db tr))
           (trips db).

Definition on_route_at (index_ids : list Z) (route_id : string)
           (service_ids : list string) (current_time from_time : Z)
           (row : BlockTripEntry.t * span) : bool :=
  let (bte, r) := row in
  Sql.in_ints (BlockTripEntry.block_trip_index_id bte) index_ids
  && String.eqb (Trip.route_id (t r)) route_id
  && Sql.in_slice (BlockTripEntry.service_id bte) service_ids
  && (first_departure_time r <=? current_time)
  && (last_arrival_time r >=? from_time).

Definition route_hits (db : DB) (index_ids : list Z) (route_id : string)
           (service_ids : list string) (current_time from_time : Z)
  : list (BlockTripEntry.t * span) :=
  filter (on_route_at index_ids route_id service_ids
                      current_time from_time)
         (route_rows db).

Definition GetActiveTripForRouteAtTime (db : DB) (index_ids : list Z)
           (route_id : string) (service_ids : list string)
           (current_time from_time : Z) : option Trip.t :=
  option_map (fun row => t (snd row))
    (Sql.one (Sql.limit 1
       (Sql.desc (fun row => first_departure_time (snd row))
                 (route_hits db index_ids route_id service_ids
                             current_time from_time)))).

(** *** The trip interval, as the data model defines it *)

(** First departure: [MIN(st.departure_time)] over the trip's stop
    events; last arrival: [MAX(st.arrival_time)] (the aggregates of
    [GetTripsByBlockIDOrdered]). *)
Definition first_departure (db : DB) (trip : string) : option Z :=
  Sql.agg_min (map StopTime.departure_time (stop_times_of db trip)).

Definition last_arrival (db : DB) (trip : string) : option Z :=
  Sql.agg_max (map StopTime.arrival_time (stop_times_of db trip)).

(** Arrival and departure times do not decrease along a trip's stop
    sequence. *)
Definition stop_times_monotone (db : DB) : Prop :=
  forall a b,
    In a (stop_times db) -> In b (stop_times db) ->
    StopTime.trip_id a = StopTime.trip_id b ->
    StopTime.stop_sequence a <= StopTime.stop_sequence b ->
    StopTime.arrival_time a <= StopTime.arrival_time b
    /\ StopTime.departure_time a <= StopTime.departure_time b.

(** Trip [tr] of block [block], run by an active service, is under way
    at [now]: its interval [[fd, la]] contains [now]. *)
Definition block_match (db : DB) (block : string)
           (service_ids : list string) (now : Z)
           (tr : Trip.t) (fd la : Z) : Prop :=
  In tr (trips db)
  /\ Trip.block_id tr = Some block
  /\ In (Trip.service_id tr) service_ids
  /\ first_departure db (Trip.id tr) = Some fd
  /\ last_arrival db (Trip.id tr) = Some la
  /\ fd <= now <= la.

(** Trip [tr] on [route], entered in one of the candidate indices under
    an active service, started by [now] and not over before [from]. *)
Definition route_match (db : DB) (index_ids : list Z) (route : string)
           (service_ids : list string) (now from : Z)
           (tr : Trip.t) (fd la : Z) : Prop :=
  In tr (trips db)
  /\ Trip.route_id tr = route
  /\ (exists bte, In bte (block_trip_entry db)
                  /\ BlockTripEntry.trip_id bte = Trip.id tr
                  /\ In (BlockTripEntry.block_trip_index_id bte) index_ids
                  /\ In (BlockTripEntry.service_id bte) service_ids)
  /\ first_departure db (Trip.id tr) = Some fd
  /\ last_arrival db (Trip.id tr) = Some la
  /\ fd <= now /\ from <= la.

(** The answer the route query is expected to give: a match with the
    latest first departure and, among matches that share it, the
    smallest trip identifier. *)
Definition latest_start_then_identifier (db : DB) (index_ids : list Z)
           (route : string) (service_ids : list string) (now from : Z)
           (answer : option Trip.t) : Prop :=
  match answer with
  | Some tr =>
      exists fd la,
        route_match db index_ids route service_ids now from tr fd la
        /\ forall tr' fd' la',
             route_match db index_ids route service_ids now from
                         tr' fd' la' ->
             fd' < fd
             \/ (fd' = fd
                 /\ String.leb (Trip.id tr) (Trip.id tr') = true)
  | None =>
      forall tr fd la,
        ~ route_match db index_ids route service_ids now from tr fd la
  end.

(** The same without the identifier rule. *)
Definition latest_start (db : DB) (index_ids : list Z)
           (route : string) (service_ids : list string) (now from : Z)
           (answer : option Trip.t) : Prop :=
  match answer with
  | Some tr =>
      exists fd la,
        route_match db index_ids route service_ids now from tr fd la
        /\ forall tr' fd' la',
             route_match db index_ids route service_ids now from
                         tr' fd' la' ->
             fd' <= fd
  | None =>
      forall tr fd la,
        ~ route_match db index_ids route service_ids now from tr fd la
  end.

End Matcher.

(* ================================================================= *)
(** ** ScheduleWindowQuery *)

Module Window.

(** A row of [GetStopTimesForStopInWindow]: [st.*] and four columns of
    the trip. *)
Record row := mkRow {
  st : StopTime.t;
  route_id : string;
  service_id : string;
  trip_headsign : option string;
  block_id : option string
}.

(** [stop_times st JOIN trips t ON st.trip_id = t.id]. *)
Definition trips_of (db : DB) (s : StopTime.t) : list Trip.t :=
  filter (fun tr => String.eqb (StopTime.trip_id s) (Trip.id tr))
         (trips db).

Definition with_trip (s : StopTime.t) (tr : Trip.t) : row :=
  mkRow s (Trip.route_id tr) (Trip.service_id tr)
        (Trip.trip_headsign tr) (Trip.block_id tr).

Definition in_window (stop : string) (window_start window_end : Z)
           (s : StopTime.t) : bool :=
  String.eqb (StopTime.stop_id s) stop
  && (Sql.between (StopTime.arrival_time s) window_start window_end
      || Sql.between (StopTime.departure_time s) window_start window_end).

Definition GetStopTimesForStopInWindow (db : DB) (stop_id : string)
           (window_start window_end : Z) : list row :=
  let joined :=
    flat_map (fun s => map (with_trip s) (trips_of db s)) (stop_times db) in
  Sql.asc (fun r => StopTime.arrival_time (st r))
    (filter (fun r => in_window stop_id window_start window_end (st r))
            joined).

(** A row of [GetArrivalsAndDeparturesForStop]. *)
Record arrival_departure := mkAD {
  ad_trip_id : string;
  ad_arrival_time : Z;
  ad_departure_time : Z;
  ad_stop_sequence : Z;
  ad_stop_headsign : option string;
  ad_service_id : string;
  ad_route_id : string;
  ad_trip_headsign : option string;
  ad_block_id : option string;
  ad_route_id_2 : string;
  ad_agency_id : string;
  ad_route_short_name : option string;
  ad_route_long_name : option string
}.

(** [JOIN routes r ON t.route_id = r.id]. *)
Definition routes_of (db : DB) (tr : Trip.t) : list Route.t :=
  filter (fun r => String.eqb (Trip.route_id tr) (Route.id r)) (routes db).

Definition select_ad (s : StopTime.t) (tr : Trip.t) (r : Route.t)
  : arrival_departure :=
  mkAD (StopTime.trip_id s) (StopTime.arrival_time s)
       (StopTime.departure_time s) (StopTime.stop_sequence s)
       (StopTime.stop_headsign s) (Trip.service_id tr) (Trip.route_id tr)
       (Trip.trip_headsign tr) (Trip.block_id tr) (Route.id r)
       (Route.agency_id r) (Route.short_name r) (Route.long_name r).

Definition select_row (j : StopTime.t * Trip.t * Route.t)
  : arrival_departure :=
  let '(s, tr, r) := j in select_ad s tr r.

(** [stop_times st JOIN trips t JOIN routes r WHERE st.stop_id = ?]:
    every joined row of the stop, before [ORDER BY] and [LIMIT]. *)
Definition events_at (db : DB) (stop_id : string)
  : list (StopTime.t * Trip.t * Route.t) :=
  filter (fun j => String.eqb (StopTime.stop_id (fst (fst j))) stop_id)
    (flat_map (fun s =>
                 flat_map (fun tr => map (fun r => (s, tr, r))
                                         (routes_of db tr))
                          (trips_of db s))
              (stop_times db)).

Definition event_arrival (j : StopTime.t * Trip.t * Route.t) : Z :=
  StopTime.arrival_time (fst (fst j)).

Definition GetArrivalsAndDeparturesForStop (db : DB) (stop_id : string)
  : list arrival_departure :=
  map select_row
      (Sql.limit 50 (Sql.asc event_arrival (events_at db stop_id))).

(** Keys of the schedule tables: [trips.id] is unique, and every stop
    event refers to a stored trip. *)
Definition trips_keyed (db : DB) : Prop :=
  NoDup (map Trip.id (trips db)).

Definition stop_times_refer_to_trips (db : DB) : Prop :=
  forall s, In s (stop_times db) ->
            exists tr, In tr (trips db) /\ Trip.id tr = StopTime.trip_id s.

End Window.

(* ================================================================= *)
(** ** The store connection: statements that may fail *)

Module Store.

(** A connection holds the database and counts the statements sent so
    far.  The store may fail on any statement; a fault plan [f] tells
    whether statement number [k] does ([f k = true]).  A failed
    statement changes nothing and reports the error to the caller. *)
Record conn := mkConn {
  db : DB;
  sent : nat
}.

Definition faults := nat -> bool.

Definition healthy : faults := fun _ => false.

(** A computation against the store: the connection afterwards, and the
    result, or [None] for a store error. *)
Definition M (A : Type) : Type := faults -> conn -> conn * option A.

Definition ret {A} (a : A) : M A := fun _ c => (c, Some a).

Definition bind {A B} (m : M A) (k : A -> M B) : M B :=
  fun f c =>
    match m f c with
    | (c', Some a) => k a f c'
    | (c', None) => (c', None)
    end.

(** Send one statement. *)
Definition exec {A} (stmt : DB -> DB * A) : M A :=
  fun f c =>
    if f (sent c) then (mkConn (db c) (S (sent c)), None)
    else let (d, a) := stmt (db c) in (mkConn d (S (sent c)), Some a).

(** The database as the connection sees it; no statement is sent. *)
Definition snapshot : M DB := fun _ c => (c, Some (db c)).

(** [BEGIN ... COMMIT]: when the body fails, every change it made is
    rolled back and the error is passed on. *)
Definition transaction {A} (body : M A) : M A :=
  fun f c =>
    match body f c with
    | (c', Some a) => (c', Some a)
    | (c', None) => (mkConn (db c) (sent c'), None)
    end.

Fixpoint for_each {A} (step : A -> M unit) (xs : list A) : M unit :=
  match xs with
  | [] => ret tt
  | x :: r => bind (step x) (fun _ => for_each step r)
  end.

(** A computation whose successful runs never met a fault: they are
    the runs of the healthy store. *)
Definition robust {A} (m : M A) : Prop :=
  forall f c c' a, m f c = (c', Some a) -> m healthy c = (c', Some a).

End Store.

Notation "x <- m ;; k" := (Store.bind m (fun x => k))
  (at level 61, m at next level, right associativity).
Notation "m ;;; k" := (Store.bind m (fun _ => k))
  (at level 61, right associativity).

(* ================================================================= *)
(** ** BlockTripIndexBuilder *)

Module Builder.

(** *** The four index statements of [query.sql] *)

Definition set_entries (d : DB) (rows : list BlockTripEntry.t) : DB :=
  mkDB (trips d) (stop_times d) (routes d) (calendar d) (calendar_dates d)
       (block_trip_index d) rows (index_seq d).

Definition set_indices (d : DB) (rows : list BlockTripIndex.t) (seq : Z)
  : DB :=
  mkDB (trips d) (stop_times d) (routes d) (calendar d) (calendar_dates d)
       rows (block_trip_entry d) seq.

(** [DELETE FROM block_trip_entry]. *)
Definition ClearBlockTripEntries (d : DB) : DB * unit :=
  (set_entries d [], tt).

(** [DELETE FROM block_trip_index]. *)
Definition ClearBlockTripIndices (d : DB) : DB * unit :=
  (set_indices d [] (index_seq d), tt).

Section GeneratedIds.

(** The declaration of [block_trip_index] is not in this source tree,
    so how its [id] is generated is left open: with
    [autoincrement] the store never hands out an id twice, without it
    a new row gets the largest id in the table plus one. *)
Variable autoincrement : bool.

Definition largest_id (rows : list BlockTripIndex.t) : Z :=
  fold_left Z.max (map BlockTripIndex.id rows) 0.

Definition next_id (d : DB) : Z :=
  1 + (if autoincrement
       then Z.max (largest_id (block_trip_index d)) (index_seq d)
       else largest_id (block_trip_index d)).

(** [INSERT INTO block_trip_index (index_key, service_ids,
    stop_sequence_key, created_at) VALUES (?, ?, ?, ?) RETURNING id]. *)
Definition CreateBlockTripIndex (index_key service_ids
                                 stop_sequence_key : string)
           (created_at : Z) (d : DB) : DB * Z :=
  let id := next_id d in
  (set_indices d
     (block_trip_index d ++
        [BlockTripIndex.mk id index_key service_ids stop_sequence_key
                           created_at])
     (if autoincrement then id else index_seq d),
   id).

(** [INSERT INTO block_trip_entry (...) VALUES (?, ?, ?, ?, ?)]. *)
Definition CreateBlockTripEntry (e : BlockTripEntry.t) (d : DB)
  : DB * unit :=
  (set_entries d (block_trip_entry d ++ [e]), tt).

(** *** Rebuild *)

(** Modelled from the spec: the Go routine that rebuilds the index is
    not in this source tree; what follows is the builder of section 4.2
    over the four statements above.  [block_of] is the block of a trip
    that can be indexed: trips with a null or empty block identifier are
    left out. *)
Definition block_of (tr : Trip.t) : option string :=
  match Trip.block_id tr with
  | Some b => if String.eqb b "" then None else Some b
  | None => None
  end.

(** Modelled from the spec: the structural fingerprint of a trip, the
    concatenation of its stop ids in stop-sequence order. *)
Definition stop_sequence_key (d : DB) (trip : string) : string :=
  String.concat ","
    (map StopTime.stop_id
         (Sql.asc StopTime.stop_sequence (Matcher.stop_times_of d trip))).

(** Modelled from the spec: a group is named by (block identifier,
    stop_sequence_key). *)
Definition group_name : Type := string * string.

(** Equality of group names is decidable. *)
Definition group_name_dec (a b : group_name) : {a = b} + {a <> b}.
Proof. decide equality; apply string_dec. Defined.

(** Modelled from the spec: the group of a trip, none for a trip
    without a block. *)
Definition name_of (d : DB) (tr : Trip.t) : option group_name :=
  match block_of tr with
  | Some b => Some (b, stop_sequence_key d (Trip.id tr))
  | None => None
  end.

(** Modelled from the spec: membership of a trip in a group. *)
Definition in_group (d : DB) (g : group_name) (tr : Trip.t) : bool :=
  match name_of d tr with
  | Some g' => if group_name_dec g' g then true else false
  | None => false
  end.

(** Modelled from the spec: step 2, the distinct groups of the stored
    trips. *)
Definition group_names (d : DB) : list group_name :=
  nodup group_name_dec
    (flat_map (fun tr => match name_of d tr with
                         | Some g => [g]
                         | None => []
                         end)
              (trips d)).

(** Modelled from the spec: the trips folded into one group, in
    storage order. *)
Definition members (d : DB) (g : group_name) : list Trip.t :=
  filter (in_group d g) (trips d).

(** Modelled from the spec: step 3, the union of the member trips'
    service identifiers. *)
Definition services_of (ms : list Trip.t) : list string :=
  Sql.distinct (map Trip.service_id ms).

(** Modelled from the spec: step 3, [index_key] is the block
    identifier combined with the fingerprint. *)
Definition index_key_of (g : group_name) : string :=
  (fst g ++ "|" ++ snd g)%string.

(** Modelled from the spec: step 4, trips ordered by first departure
    (the minimum departure of their stop events) ascending. *)
Definition by_first_departure (d : DB) (ms : list Trip.t)
  : list Trip.t :=
  Sql.order_by Sql.null_first_leb
    (fun tr => Matcher.first_departure d (Trip.id tr)) ms.

(** Modelled from the spec: step 4, the sub-partition of a group by
    service identifier, in departure order. *)
Definition slots (d : DB) (ms : list Trip.t) (service : string)
  : list Trip.t :=
  by_first_departure d
    (filter (fun tr => String.eqb (Trip.service_id tr) service) ms).

(** Modelled from the spec: step 4, positions [from], [from + 1],
    ... *)
Fixpoint numbered {A} (from : Z) (xs : list A) : list (Z * A) :=
  match xs with
  | [] => []
  | x :: r => (from, x) :: numbered (from + 1) r
  end.

(** Modelled from the spec: the entry row of a trip at a position. *)
Definition entry_of (index_id : Z) (slot : Z * Trip.t)
  : BlockTripEntry.t :=
  BlockTripEntry.mk index_id (Trip.id (snd slot))
                    (Trip.block_id (snd slot))
                    (Trip.service_id (snd slot)) (fst slot).

(** Modelled from the spec: step 4, the entry rows of a group: each
    service's trips numbered 0, 1, 2, ... *)
Definition entries_for (d : DB) (index_id : Z) (ms : list Trip.t)
  : list BlockTripEntry.t :=
  flat_map (fun service =>
              map (entry_of index_id) (numbered 0 (slots d ms service)))
           (services_of ms).

(** Modelled from the spec: step 5, one group is persisted as one
    index row followed by its entry rows. *)
Definition persist_group (src : DB) (now : Z) (g : group_name)
  : Store.M unit :=
  let ms := members src g in
  id <- Store.exec
          (CreateBlockTripIndex (index_key_of g)
                                (String.concat "," (services_of ms))
                                (snd g) now) ;;
  Store.for_each (fun e => Store.exec (CreateBlockTripEntry e))
                 (entries_for src id ms).

(** Modelled from the spec: steps 1 to 5 of the builder: clear the
    entries, then the indices, then regroup the trips and persist
    every group.  [now] is the clock reading stored in [created_at]. *)
Definition rebuild_steps (now : Z) : Store.M unit :=
  Store.exec ClearBlockTripEntries ;;;
  Store.exec ClearBlockTripIndices ;;;
  src <- Store.snapshot ;;
  Store.for_each (persist_group src now) (group_names src).

(** Modelled from the spec: [Rebuild] runs the clear-then-repopulate
    sequence as one transaction. *)
Definition Rebuild (now : Z) : Store.M unit :=
  Store.transaction (rebuild_steps now).

(** The database after a rebuild on a store that does not fail. *)
Definition rebuilt (now : Z) (d : DB) : DB :=
  Store.db (fst (Rebuild now Store.healthy (Store.mkConn d 0))).

(** *** The rows a rebuild writes when the store does not fail *)

(** Groups are persisted in order; the ids handed out are
    consecutive. *)
Fixpoint index_rows (src : DB) (now from : Z) (gs : list group_name)
  : list BlockTripIndex.t :=
  match gs with
  | [] => []
  | g :: r =>
      BlockTripIndex.mk from (index_key_of g)
        (String.concat "," (services_of (members src g))) (snd g) now
      :: index_rows src now (from + 1) r
  end.

Fixpoint entry_rows (src : DB) (from : Z) (gs : list group_name)
  : list BlockTripEntry.t :=
  match gs with
  | [] => []
  | g :: r =>
      entries_for src from (members src g) ++ entry_rows src (from + 1) r
  end.

(** The largest id the store has generated so far. *)
Definition high_water (d : DB) : Z :=
  if autoincrement
  then Z.max (largest_id (block_trip_index d)) (index_seq d)
  else largest_id (block_trip_index d).

(** With [autoincrement] the store's counter is never behind the ids
    in the table. *)
Definition counter_ahead (d : DB) : Prop :=
  autoincrement = true ->
  largest_id (block_trip_index d) <= Z.max 0 (index_seq d).

End GeneratedIds.

(** *** Comparing two builds of the index *)

(** An index row and an entry row with the generated id moved by [k];
    [restamp] also replaces the creation time. *)
Definition restamp (now k : Z) (r : BlockTripIndex.t) : BlockTripIndex.t :=
  BlockTripIndex.mk (BlockTripIndex.id r + k) (BlockTripIndex.index_key r)
                    (BlockTripIndex.service_ids r)
                    (BlockTripIndex.stop_sequence_key r) now.

Definition relink (k : Z) (e : BlockTripEntry.t) : BlockTripEntry.t :=
  BlockTripEntry.mk (BlockTripEntry.block_trip_index_id e + k)
                    (BlockTripEntry.trip_id e) (BlockTripEntry.block_id e)
                    (BlockTripEntry.service_id e)
                    (BlockTripEntry.block_trip_sequence e).

(** *** The sequence invariant of a (block, service) pair *)

(** The trips and the entry rows of one (block, service) pair. *)
Definition pair_trips (d : DB) (block service : string) : list Trip.t :=
  filter (fun tr => Sql.eq_null (block_of tr) (Some block)
                    && String.eqb (Trip.service_id tr) service)
         (trips d).

Definition pair_entries (d : DB) (block service : string)
  : list BlockTripEntry.t :=
  filter (fun e => Sql.eq_null (BlockTripEntry.block_id e) (Some block)
                   && String.eqb (BlockTripEntry.service_id e) service)
         (block_trip_entry d).

(** The sequence numbers of the rows are 0, 1, 2, ... without gap or
    repetition. *)
Definition contiguous_from_zero (es : list BlockTripEntry.t) : Prop :=
  Permutation (map BlockTripEntry.block_trip_sequence es)
              (map Z.of_nat (seq 0 (List.length es))).

(** A later sequence number means a later first departure. *)
Definition increasing_with_departure (d : DB)
           (es : list BlockTripEntry.t) : Prop :=
  forall e1 e2,
    In e1 es -> In e2 es ->
    BlockTripEntry.block_trip_sequence e1
    < BlockTripEntry.block_trip_sequence e2 ->
    exists fd1 fd2,
      Matcher.first_departure d (BlockTripEntry.trip_id e1) = Some fd1
      /\ Matcher.first_departure d (BlockTripEntry.trip_id e2) = Some fd2
      /\ fd1 < fd2.

(** The same, allowing equal first departures; a trip without stop
    events counts as departing before all others. *)
Definition ordered_by_departure (d : DB)
           (es : list BlockTripEntry.t) : Prop :=
  forall e1 e2,
    In e1 es -> In e2 es ->
    BlockTripEntry.block_trip_sequence e1
    < BlockTripEntry.block_trip_sequence e2 ->
    Sql.null_first_leb
      (Matcher.first_departure d (BlockTripEntry.trip_id e1))
      (Matcher.first_departure d (BlockTripEntry.trip_id e2)) = true.

(** A trip is over before the next one of the pair starts. *)
Definition successive_disjoint (d : DB)
           (es : list BlockTripEntry.t) : Prop :=
  forall e1 e2,
    In e1 es -> In e2 es ->
    BlockTripEntry.block_trip_sequence e2
    = BlockTripEntry.block_trip_sequence e1 + 1 ->
    exists la1 fd2,
      Matcher.last_arrival d (BlockTripEntry.trip_id e1) = Some la1
      /\ Matcher.first_departure d (BlockTripEntry.trip_id e2) = Some fd2
      /\ la1 < fd2.

Definition sequence_invariant (d : DB) (block service : string) : Prop :=
  let es := pair_entries d block service in
  contiguous_from_zero es
  /\ increasing_with_departure d es
  /\ successive_disjoint d es.

(** Conditions on the schedule under which the invariant is kept. *)

(** All trips of the pair call at the same stops in the same order. *)
Definition one_pattern (d : DB) (block service : string) : Prop :=
  forall tr tr',
    In tr (pair_trips d block service) ->
    In tr' (pair_trips d block service) ->
    stop_sequence_key d (Trip.id tr) = stop_sequence_key d (Trip.id tr').

(** Every trip of the pair has an interval, and the intervals of two
    different trips do not meet. *)
Definition spaced_apart (d : DB) (block service : string) : Prop :=
  (forall tr, In tr (pair_trips d block service) ->
              exists fd la,
                Matcher.first_departure d (Trip.id tr) = Some fd
                /\ Matcher.last_arrival d (Trip.id tr) = Some la
                /\ fd <= la)
  /\ (forall tr tr' la la' fd fd',
        In tr (pair_trips d block service) ->
        In tr' (pair_trips d block service) ->
        tr <> tr' ->
        Matcher.first_departure d (Trip.id tr) = Some fd ->
        Matcher.last_arrival d (Trip.id tr) = Some la ->
        Matcher.first_departure d (Trip.id tr') = Some fd' ->
        Matcher.last_arrival d (Trip.id tr') = Some la' ->
        la < fd' \/ la' < fd).

End Builder.

(* ================================================================= *)
(** ** Scenario data *)

Module Scenario.

Definition stop_event (trip : string) (seq arrival departure : Z)
           (stop : string) : StopTime.t :=
  StopTime.mk trip arrival departure stop seq None.

Definition trip (id service block : string) : Trip.t :=
  Trip.mk id "R1" service None (Some block).

Definition schedule (ts : list Trip.t) (sts : list StopTime.t) : DB :=
  mkDB ts sts [] [] [] [] [] 0.

(** Block [B1] under service [s1]: [T1] runs 08:00:00 to 08:10:00,
    [T2] runs 08:11:40 to 08:25:00. *)
Definition block_b1 : DB :=
  schedule
    [trip "T1" "s1" "B1"; trip "T2" "s1" "B1"]
    [stop_event "T1" 1 28800 28800 "A"; stop_event "T1" 2 29400 29400 "B";
     stop_event "T2" 1 29500 29500 "A"; stop_event "T2" 2 30300 30300 "B"].

(** The same schedule with its block-trip index built. *)
Definition block_b1_indexed : DB := Builder.rebuilt false 0 block_b1.

(** Two trips of one route that leave at the same second, stored with
    the larger identifier first. *)
Definition same_start : DB :=
  Builder.rebuilt false 0
    (schedule
       [trip "T2" "s1" "B2"; trip "T1" "s1" "B1"]
       [stop_event "T2" 1 28800 28800 "A"; stop_event "T2" 2 29400 29400 "B";
        stop_event "T1" 1 28800 28800 "A"; stop_event "T1" 2 29400 29400 "B"]).

(** Service [s1] runs on Mondays through 2025 and is removed on Monday
    6 January 2025. *)
Definition mondays : DB :=
  mkDB [] [] []
       [Calendar.mk "s1" 1 0 0 0 0 0 0 "20250101" "20251231"]
       [CalendarDate.mk "s1" "20250106" CalendarDate.removed;
        CalendarDate.mk "s2" "20250106" CalendarDate.added]
       [] [] 0.

(** One block and service whose two trips are on the road at the same
    time. *)
Definition overlapping : DB :=
  schedule
    [trip "T1" "s1" "B1"; trip "T2" "s1" "B1"]
    [stop_event "T1" 1 100 100 "A"; stop_event "T1" 2 300 300 "B";
     stop_event "T2" 1 200 200 "A"; stop_event "T2" 2 400 400 "B"].

(** One block and service with a full run and a short-turn run. *)
Definition short_turn : DB :=
  schedule
    [trip "T1" "s1" "B1"; trip "T2" "s1" "B1"]
    [stop_event "T1" 1 100 100 "A"; stop_event "T1" 2 200 200 "B";
     stop_event "T2" 1 300 300 "A"; stop_event "T2" 2 400 400 "C"].

(** A single trip calling at two stops. *)
Definition one_stop : DB :=
  schedule [trip "T1" "s1" "B1"]
           [stop_event "T1" 1 100 110 "A"; stop_event "T1" 2 200 210 "B"].

(** Sixty buses call at stop [S], the latest stored first. *)
Definition busy_stop : DB :=
  mkDB [trip "T1" "s1" "B1"]
       (map (fun k => stop_event "T1" (Z.of_nat k) (1000 - Z.of_nat k)
                                 (1000 - Z.of_nat k) "S")
            (seq 1 60))
       [Route.mk "R1" "agency" None None]
       [] [] [] [] 0.

(** A trip whose stop events run backwards in time: it leaves its
    second stop before its first. *)
Definition backwards : DB :=
  schedule [trip "T1" "s1" "B1"]
           [stop_event "T1" 1 200 200 "A"; stop_event "T1" 2 300 100 "B"].

(** Service [s1] both removed and added on the same date. *)
Definition conflicting : DB :=
  mkDB [] [] [] []
       [CalendarDate.mk "s1" "20250106" CalendarDate.removed;
        CalendarDate.mk "s1" "20250106" CalendarDate.added]
       [] [] 0.

(** The store fails on the statement numbered [k] (from 0). *)
Definition fails_at (k : nat) : Store.faults := fun n => Nat.eqb n k.

End Scenario.

(* ================================================================= *)
(** ** Further queries of [query.sql] *)

Module Lookup.

(** *** [GetTripsInBlock :many] *)

Definition GetTripsInBlock (db : DB) (block_id : option string)
           (service_ids : list string) : list string :=
  map Trip.id
      (filter (fun tr => Sql.eq_null (Trip.block_id tr) block_id
                         && Sql.in_slice (Trip.service_id tr) service_ids)
              (trips db)).

(** *** What [GetActiveTripInBlockAtTime] tests *)

(** The trip is of the block, runs under a listed service, and the
    query time lies between the departure from its lowest-sequence stop
    and the arrival at its highest-sequence stop. *)
Definition under_way (db : DB) (block : string) (ids : list string)
           (now : Z) (tr : Trip.t) (departs : Z) : Prop :=
  In tr (trips db)
  /\ Trip.block_id tr = Some block
  /\ In (Trip.service_id tr) ids
  /\ exists f l,
       In f (stop_times db) /\ In l (stop_times db)
       /\ StopTime.trip_id f = Trip.id tr /\ StopTime.trip_id l = Trip.id tr
       /\ (forall s, In s (stop_times db) ->
                     StopTime.trip_id s = Trip.id tr ->
                     StopTime.stop_sequence f <= StopTime.stop_sequence s
                     <= StopTime.stop_sequence l)
       /\ StopTime.departure_time f = departs
       /\ departs <= now <= StopTime.arrival_time l.

(** *** [GetTripsByBlockIDOrdered :many] *)

(** A result row: the three grouping columns and the two aggregates. *)
Record block_trip := mkBlockTrip {
  bt_id : string;
  bt_block_id : option string;
  bt_service_id : string;
  first_departure_time : option Z;
  last_arrival_time : option Z
}.

(** [GROUP BY t.id, t.block_id, t.service_id]. *)
Definition group_key : Type := string * option string * string.

(** Equality of grouping keys is decidable. *)
Definition group_key_dec (a b : group_key) : {a = b} + {a <> b}.
Proof. repeat decide equality. Defined.

Definition key_of (row : Trip.t * StopTime.t) : group_key :=
  (Trip.id (fst row), Trip.block_id (fst row), Trip.service_id (fst row)).

(** [trips t JOIN stop_times st ON st.trip_id = t.id WHERE t.block_id = ?
    AND t.service_id IN (...)]. *)
Definition block_stop_rows (db : DB) (block_id : option string)
           (service_ids : list string) : list (Trip.t * StopTime.t) :=
  filter (fun row =>
            Sql.eq_null (Trip.block_id (fst row)) block_id
            && Sql.in_slice (Trip.service_id (fst row)) service_ids)
         (flat_map (fun tr =>
                      map (pair tr)
                          (filter (fun s => String.eqb (StopTime.trip_id s)
                                                       (Trip.id tr))
                                  (stop_times db)))
                   (trips db)).

(** The rows of one group. *)
Definition group_rows (rows : list (Trip.t * StopTime.t)) (k : group_key)
  : list (Trip.t * StopTime.t) :=
  filter (fun row => if group_key_dec (key_of row) k then true else false)
         rows.

Definition aggregate (rows : list (Trip.t * StopTime.t)) (k : group_key)
  : block_trip :=
  let g := group_rows rows k in
  mkBlockTrip (fst (fst k)) (snd (fst k)) (snd k)
    (Sql.agg_min (map (fun row => StopTime.departure_time (snd row)) g))
    (Sql.agg_max (map (fun row => StopTime.arrival_time (snd row)) g)).

(** One row per group, [ORDER BY MIN(st.departure_time)]. *)
Definition GetTripsByBlockIDOrdered (db : DB) (block_id : option string)
           (service_ids : list string) : list block_trip :=
  let rows := block_stop_rows db block_id service_ids in
  Sql.order_by Sql.null_first_leb first_departure_time
    (map (aggregate rows) (nodup group_key_dec (map key_of rows))).

(** *** [GetBlockTripIndexIDsForRoute :many] *)

(** [SELECT DISTINCT] on an integer column. *)
Definition distinct_ints (xs : list Z) : list Z := nodup Z.eq_dec xs.

(** [block_trip_index bti JOIN block_trip_entry bte
      ON bti.id = bte.block_trip_index_id
    JOIN trips t ON bte.trip_id = t.id]. *)
Definition index_rows_joined (db : DB)
  : list (BlockTripIndex.t * BlockTripEntry.t * Trip.t) :=
  flat_map (fun bti =>
    flat_map (fun bte =>
      map (fun tr => (bti, bte, tr))
          (filter (fun tr => String.eqb (BlockTripEntry.trip_id bte)
                                        (Trip.id tr))
                  (trips db)))
      (filter (fun bte => BlockTripIndex.id bti
                          =? BlockTripEntry.block_trip_index_id bte)
              (block_trip_entry db)))
    (block_trip_index db).

Definition GetBlockTripIndexIDsForRoute (db : DB) (route_id : string)
           (service_ids : list string) : list Z :=
  Sql.asc (fun id => id)
    (distinct_ints
       (map (fun row => BlockTripIndex.id (fst (fst row)))
            (filter (fun row =>
                       String.eqb (Trip.route_id (snd row)) route_id
                       && Sql.in_slice
                            (BlockTripEntry.service_id (snd (fst row)))
                            service_ids)
                    (index_rows_joined db)))).

(** *** [GetBlockTripIndexIDsForBlocks :many] *)

(** [col IN (sqlc.slice(...))] on a nullable text column: NULL is in no
    list. *)
Definition null_in_slice (x : option string) (xs : list string) : bool :=
  match x with
  | Some v => Sql.in_slice v xs
  | None => false
  end.

Definition GetBlockTripIndexIDsForBlocks (db : DB) (block_ids : list string)
           (service_ids : list string) : list Z :=
  Sql.asc (fun id => id)
    (distinct_ints
       (map BlockTripEntry.block_trip_index_id
            (filter (fun bte =>
                       null_in_slice (BlockTripEntry.block_id bte) block_ids
                       && Sql.in_slice (BlockTripEntry.service_id bte)
                                       service_ids)
                    (block_trip_entry db)))).

(** *** [GetBlocksForBlockTripIndexIDs :many] *)

(** Equality of nullable text is decidable. *)
Definition null_string_dec (a b : option string) : {a = b} + {a <> b}.
Proof. repeat decide equality. Defined.

Definition GetBlocksForBlockTripIndexIDs (db : DB) (index_ids : list Z)
           (service_ids : list string) : list (option string) :=
  nodup null_string_dec
    (map BlockTripEntry.block_id
         (filter (fun bte =>
                    Sql.in_ints (BlockTripEntry.block_trip_index_id bte)
                                index_ids
                    && Sql.in_slice (BlockTripEntry.service_id bte)
                                    service_ids
                    && match BlockTripEntry.block_id bte with
                       | Some _ => true
                       | None => false
                       end)
                 (block_trip_entry db))).

(** Every entry row points to a stored index row. *)
Definition entries_refer_to_indices (db : DB) : Prop :=
  forall e, In e (block_trip_entry db) ->
            exists i, In i (block_trip_index db)
                      /\ BlockTripIndex.id i
                         = BlockTripEntry.block_trip_index_id e.

(** *** [GetRouteIDsForStop :many] *)

(** [SELECT DISTINCT (routes.agency_id || '_' || routes.id) FROM stop_times
    JOIN trips ON stop_times.trip_id = trips.id
    JOIN routes ON trips.route_id = routes.id WHERE stop_times.stop_id = ?]. *)
Definition GetRouteIDsForStop (db : DB) (stop_id : string) : list string :=
  Sql.distinct
    (map (fun j => (Route.agency_id (snd j) ++ "_" ++ Route.id (snd j))%string)
         (Window.events_at db stop_id)).

(** *** [GetScheduleForStopOnDate :many] *)

(** [A LEFT JOIN B ON cond]: every matching row of [B], or one NULL row
    when there is none. *)
Definition left_join {B} (matching : list B) : list (option B) :=
  match matching with
  | [] => [None]
  | _ => map Some matching
  end.

(** [@weekday = '<name>' AND c.<name> = 1]. *)
Definition named_day (weekday name : string) (flag : Z) : bool :=
  String.eqb weekday name && (flag =? 1).

(** The [base] subquery. *)
Definition base_on (db : DB) (target_date weekday : string) : list string :=
  map Calendar.id
    (filter (fun c =>
               String.leb (Calendar.start_date c) target_date
               && String.leb target_date (Calendar.end_date c)
               && (named_day weekday "sunday" (Calendar.sunday c)
                   || named_day weekday "monday" (Calendar.monday c)
                   || named_day weekday "tuesday" (Calendar.tuesday c)
                   || named_day weekday "wednesday" (Calendar.wednesday c)
                   || named_day weekday "thursday" (Calendar.thursday c)
                   || named_day weekday "friday" (Calendar.friday c)
                   || named_day weekday "saturday" (Calendar.saturday c)))
            (calendar db)).

(** A result row. *)
Record schedule_row := mkSchedule {
  sr_trip_id : string;
  sr_arrival_time : Z;
  sr_departure_time : Z;
  sr_stop_headsign : option string;
  sr_service_id : string;
  sr_route_id : string;
  sr_trip_headsign : option string;
  sr_route_id_2 : string;
  sr_agency_id : string
}.

(** A joined row before projection: the stop event, its trip and route,
    and the three outer-joined service columns. *)
Record schedule_join := mkJoin {
  j_st : StopTime.t;
  j_trip : Trip.t;
  j_route : Route.t;
  j_base : option string;
  j_removed : option string;
  j_added : option string
}.

Definition same_service (tr : Trip.t) (s : string) : bool :=
  String.eqb (Trip.service_id tr) s.

Definition schedule_joins (db : DB) (target_date weekday : string)
  : list schedule_join :=
  flat_map (fun j =>
    let '(s, tr, r) := j in
    flat_map (fun b =>
      flat_map (fun rm =>
        map (fun ad => mkJoin s tr r b rm ad)
            (left_join (filter (same_service tr)
                          (Resolver.added_services db target_date))))
        (left_join (filter (same_service tr)
                      (Resolver.removed_services db target_date))))
      (left_join (filter (same_service tr)
                    (base_on db target_date weekday))))
    (flat_map (fun s =>
                 flat_map (fun tr => map (fun r => (s, tr, r))
                                         (Window.routes_of db tr))
                          (Window.trips_of db s))
              (stop_times db)).

Definition is_null {A} (x : option A) : bool :=
  match x with
  | Some _ => false
  | None => true
  end.

Definition schedule_where (stop_id : string) (route_ids : list string)
           (j : schedule_join) : bool :=
  String.eqb (StopTime.stop_id (j_st j)) stop_id
  && ((negb (is_null (j_base j)) && is_null (j_removed j))
      || negb (is_null (j_added j)))
  && Sql.in_slice (Route.id (j_route j)) route_ids.

(** [ORDER BY r.id, st.arrival_time]: text first, then time. *)
Definition route_then_arrival (a b : string * Z) : bool :=
  if String.eqb (fst a) (fst b) then snd a <=? snd b
  else String.ltb (fst a) (fst b).

Definition select_schedule (j : schedule_join) : schedule_row :=
  mkSchedule (StopTime.trip_id (j_st j)) (StopTime.arrival_time (j_st j))
             (StopTime.departure_time (j_st j))
             (StopTime.stop_headsign (j_st j))
             (Trip.service_id (j_trip j)) (Trip.route_id (j_trip j))
             (Trip.trip_headsign (j_trip j))
             (Route.id (j_route j)) (Route.agency_id (j_route j)).

Definition GetScheduleForStopOnDate (db : DB) (target_date weekday : string)
           (stop_id : string) (route_ids : list string)
  : list schedule_row :=
  map select_schedule
    (Sql.order_by route_then_arrival
       (fun j => (Route.id (j_route j), StopTime.arrival_time (j_st j)))
       (filter (schedule_where stop_id route_ids)
               (schedule_joins db target_date weekday))).

(** The name the weekday parameter carries for SQLite's day number. *)
Definition weekday_name (w : Z) : string :=
  if w =? 0 then "sunday"
  else if w =? 1 then "monday"
  else if w =? 2 then "tuesday"
  else if w =? 3 then "wednesday"
  else if w =? 4 then "thursday"
  else if w =? 5 then "friday"
  else "saturday".

End Lookup.

(* ================================================================= *)
(** ** Go values used by the request helpers *)

Module Go.

(** [int] is 64 bits wide; arithmetic wraps around. *)
Definition int_min : Z := - 2 ^ 63.
Definition int_max : Z := 2 ^ 63 - 1.

Definition wrap (z : Z) : Z := (z + 2 ^ 63) mod 2 ^ 64 - 2 ^ 63.

Definition add (a b : Z) : Z := wrap (a + b).

(** [strconv.Atoi]: an optional sign followed by one or more decimal
    digits, within the range of [int]; anything else is an error. *)
Definition Atoi (s : string) : option Z :=
  match s with
  | EmptyString => None
  | String c r =>
      let negative := Ascii.eqb c "-" in
      let body := if negative || Ascii.eqb c "+" then r else s in
      match body with
      | EmptyString => None
      | _ =>
          match Resolver.digits body 0 with
          | Some n =>
              let v := if negative then - n else n in
              if (int_min <=? v) && (v <=? int_max) then Some v else None
          | None => None
          end
      end
  end.

(** [url.Values]: the values given for each key; no values for a key
    that is absent. *)
Definition Values : Type := string -> list string.

(** [url.Values.Get]: the first value of the key, or the empty text. *)
Definition Get (q : Values) (key : string) : string :=
  match q key with
  | [] => ""
  | v :: _ => v
  end.

(** [strings.SplitN(s, "_", 2)]: the text before and after the first
    underscore, or the text alone when it has none. *)
Fixpoint split_underscore (s : string) : option (string * string) :=
  match s with
  | EmptyString => None
  | String c r =>
      if Ascii.eqb c "_" then Some (EmptyString, r)
      else match split_underscore r with
           | Some (a, b) => Some (String c a, b)
           | None => None
           end
  end.

(** Whether the text holds an underscore. *)
Fixpoint has_underscore (s : string) : bool :=
  match s with
  | EmptyString => false
  | String c r => Ascii.eqb c "_" || has_underscore r
  end.

Definition SplitN2 (s : string) : list string :=
  match split_underscore s with
  | Some (a, b) => [a; b]
  | None => [s]
  end.

(** [items[lo:hi]]; a run-time panic is [None]. *)
Definition slice {T} (items : list T) (lo hi : Z) : option (list T) :=
  if (0 <=? lo) && (lo <=? hi) && (hi <=? Z.of_nat (List.length items))
  then Some (firstn (Z.to_nat (hi - lo)) (skipn (Z.to_nat lo) items))
  else None.

(** The double-quote character, as text. *)
Definition quote : string := String (ascii_of_nat 34) EmptyString.

(** A [map[string][]string] of validation messages; [None] for an absent
    key. *)
Definition FieldErrors : Type := string -> option (list string).

Definition no_errors : FieldErrors := fun _ => None.

(** [m[key] = v]. *)
Definition set_key (m : FieldErrors) (key : string) (v : list string)
  : FieldErrors :=
  fun k => if String.eqb k key then Some v else m k.

End Go.

(* ================================================================= *)
(** ** Request helpers: [internal/utils/api.go] *)

Module Utils.

(** The error value of the three extractors: [invalid format: <id>]. *)
Inductive result (A : Type) : Type :=
| Ok (a : A)
| InvalidFormat (combinedID : string).
Arguments Ok {A} a.
Arguments InvalidFormat {A} combinedID.

Definition ExtractCodeID (combinedID : string) : result string :=
  match Go.SplitN2 combinedID with
  | [_; code] => Ok code
  | _ => InvalidFormat combinedID
  end.

Definition ExtractAgencyID (combinedID : string) : result string :=
  match Go.SplitN2 combinedID with
  | [agency; _] => Ok agency
  | _ => InvalidFormat combinedID
  end.

Definition ExtractAgencyIDAndCodeID (combinedID : string)
  : result (string * string) :=
  match Go.SplitN2 combinedID with
  | [agency; code] => Ok (agency, code)
  | _ => InvalidFormat combinedID
  end.

Definition FormCombinedID (agencyID codeID : string) : string :=
  if String.eqb codeID "" || String.eqb agencyID "" then ""
  else (agencyID ++ "_" ++ codeID)%string.

(** [ParsePaginationParams], on the query of the request. *)
Definition ParsePaginationParams (queryParams : Go.Values) : Z * Z :=
  let offset :=
    let val := Go.Get queryParams "offset" in
    if negb (String.eqb val "") then
      match Go.Atoi val with
      | Some parsed => if parsed >=? 0 then parsed else 0
      | None => 0
      end
    else 0 in
  let positive (val : string) : Z :=
    match Go.Atoi val with
    | Some parsed => if parsed >? 0 then parsed else -1
    | None => -1
    end in
  let limit :=
    let val := Go.Get queryParams "maxCount" in
    if negb (String.eqb val "") then positive val
    else
      let val := Go.Get queryParams "limit" in
      if negb (String.eqb val "") then positive val else -1 in
  let limit := if limit >? 1000 then 1000 else limit in
  (offset, limit).

(** [PaginateSlice]; [None] is a run-time panic of a slice expression. *)
Definition PaginateSlice {T} (items : list T) (offset limit : Z)
  : option (list T * bool) :=
  let len := Z.of_nat (List.length items) in
  if offset >=? len then Some ([], false)
  else if limit =? -1 then
    option_map (fun page => (page, false)) (Go.slice items offset len)
  else
    let end_ := Go.add offset limit in
    let limitExceeded := end_ <? len in
    let end_ := if limitExceeded then end_ else len in
    option_map (fun page => (page, limitExceeded))
               (Go.slice items offset end_).

Section MaxCount.

(** [models.MaxAllowedCount] is declared outside this source tree; the
    messages and the comment of [ParseMaxCount] give it as 250. *)
Variable MaxAllowedCount : Z.

Definition ParseMaxCount (queryParams : Go.Values) (defaultCount : Z)
           (fieldErrors : option Go.FieldErrors) : Z * Go.FieldErrors :=
  let fieldErrors :=
    match fieldErrors with
    | Some m => m
    | None => Go.no_errors
    end in
  let maxCountStr := Go.Get queryParams "maxCount" in
  if negb (String.eqb maxCountStr "") then
    match Go.Atoi maxCountStr with
    | Some parsedMaxCount =>
        if parsedMaxCount <=? 0 then
          (defaultCount,
           Go.set_key fieldErrors "maxCount" ["must be greater than zero"])
        else if parsedMaxCount >? MaxAllowedCount then
          (defaultCount,
           Go.set_key fieldErrors "maxCount" ["must not exceed 250"])
        else (parsedMaxCount, fieldErrors)
    | None =>
        (defaultCount,
         Go.set_key fieldErrors "maxCount"
                    [("Invalid field value for field " ++ Go.quote
                      ++ "maxCount" ++ Go.quote ++ ".")%string])
    end
  else (defaultCount, fieldErrors).

End MaxCount.

End Utils.

(* ================================================================= *)
(** ** Configuration: [internal/appconf] *)

Module Appconf.

Inductive Environment : Type :=
| Development
| Test
| Production.

Definition EnvFlagToEnvironment (envFlag : string) : Environment :=
  if String.eqb envFlag "development" then Development
  else if String.eqb envFlag "test" then Test
  else if String.eqb envFlag "production" then Production
  else Development.

Record GtfsStaticFeed := mkStatic {
  URL : string;
  AuthHeaderName : string;
  AuthHeaderValue : string;
  EnableGTFSTidy : bool
}.

Record GtfsRtFeed := mkRt {
  TripUpdatesURL : string;
  VehiclePositionsURL : string;
  ServiceAlertsURL : string;
  RealTimeAuthHeaderName : string;
  RealTimeAuthHeaderValue : string
}.

Record JSONConfig := mkJSON {
  Port : Z;
  Env : string;
  ApiKeys : list string;
  ExemptApiKeys : list string;
  RateLimit : Z;
  StaticFeed : GtfsStaticFeed;
  GtfsRtFeeds : list GtfsRtFeed;
  DataPath : string
}.

Record Config := mkConfig {
  cfg_Port : Z;
  cfg_Env : Environment;
  cfg_ApiKeys : list string;
  cfg_ExemptApiKeys : list string;
  cfg_Verbose : bool;
  cfg_RateLimit : Z
}.

(** [setDefaults]. *)
Definition default_rt_feed : GtfsRtFeed :=
  mkRt "https://api.pugetsound.onebusaway.org/api/gtfs_realtime/trip-updates-for-agency/40.pb?key=org.onebusaway.iphone"
       "https://api.pugetsound.onebusaway.org/api/gtfs_realtime/vehicle-positions-for-agency/40.pb?key=org.onebusaway.iphone"
       "" "" "".

Definition is_empty {A} (l : list A) : bool :=
  match l with
  | [] => true
  | _ => false
  end.

Definition setDefaults (j : JSONConfig) : JSONConfig :=
  mkJSON
    (if Port j =? 0 then 4000 else Port j)
    (if String.eqb (Env j) "" then "development" else Env j)
    (if is_empty (ApiKeys j) then ["test"] else ApiKeys j)
    (if is_empty (ExemptApiKeys j) then ["org.onebusaway.iphone"]
     else ExemptApiKeys j)
    (if RateLimit j =? 0 then 100 else RateLimit j)
    (mkStatic
       (if String.eqb (URL (StaticFeed j)) ""
        then "https://www.soundtransit.org/GTFS-rail/40_gtfs.zip"
        else URL (StaticFeed j))
       (AuthHeaderName (StaticFeed j)) (AuthHeaderValue (StaticFeed j))
       (EnableGTFSTidy (StaticFeed j)))
    (if is_empty (GtfsRtFeeds j) then [default_rt_feed] else GtfsRtFeeds j)
    (if String.eqb (DataPath j) "" then "./gtfs.db" else DataPath j).

(** The errors [validate] reports, with the values quoted in their
    messages. *)
Inductive ConfigError : Type :=
| PortOutOfRange (port : Z)
| UnknownEnv (env : string)
| RateLimitTooLow (rate : Z)
| NoApiKeys
| EmptyApiKey
| DuplicateApiKey (key : string)
| PathStartsWithDotDot (field : string)
| PathTraversal (field : string)
| AuthHeaderIncomplete
| FileURL.

(** [strings.HasPrefix], [strings.HasSuffix], [strings.Contains]. *)
Definition HasPrefix (s p : string) : bool := String.prefix p s.

Fixpoint Contains (s sub : string) : bool :=
  String.prefix sub s
  || match s with
     | EmptyString => false
     | String _ r => Contains r sub
     end.

Fixpoint HasSuffix (s suf : string) : bool :=
  String.eqb s suf
  || match s with
     | EmptyString => false
     | String _ r => HasSuffix r suf
     end.

(** The duplicate check over the keys, with the keys seen so far. *)
Fixpoint check_keys (seen keys : list string) : option ConfigError :=
  match keys with
  | [] => None
  | key :: rest =>
      if String.eqb key "" then Some EmptyApiKey
      else if Sql.in_slice key seen then Some (DuplicateApiKey key)
      else check_keys (key :: seen) rest
  end.

Section Platform.

(** Library functions whose tables are not part of this repository:
    [filepath.Clean], [filepath.Separator] and [strings.ToLower]. *)
Variable Clean : string -> string.
Variable Separator : string.
Variable ToLower : string -> string.

(** [validatePath]. *)
Definition validatePath (path fieldName : string) : option ConfigError :=
  if String.eqb path "" then None
  else if String.eqb path ":memory:" then None
  else
    let cleanPath := Clean path in
    if HasPrefix cleanPath ".." then Some (PathStartsWithDotDot fieldName)
    else if Contains cleanPath (Separator ++ ".." ++ Separator)%string
            || HasSuffix cleanPath (Separator ++ "..")%string
         then Some (PathTraversal fieldName)
         else None.

(** [validate]; [None] is the nil error. *)
Definition validate (j : JSONConfig) : option ConfigError :=
  if (Port j <? 1) || (Port j >? 65535) then Some (PortOutOfRange (Port j))
  else if negb (String.eqb (Env j) "development"
                || String.eqb (Env j) "test"
                || String.eqb (Env j) "production")
  then Some (UnknownEnv (Env j))
  else if RateLimit j <? 1 then Some (RateLimitTooLow (RateLimit j))
  else if is_empty (ApiKeys j) then Some NoApiKeys
  else
    match check_keys [] (ApiKeys j) with
    | Some e => Some e
    | None =>
        match validatePath (DataPath j) "data-path" with
        | Some e => Some e
        | None =>
            let name := AuthHeaderName (StaticFeed j) in
            let value := AuthHeaderValue (StaticFeed j) in
            if (negb (String.eqb name "") && String.eqb value "")
               || (String.eqb name "" && negb (String.eqb value ""))
            then Some AuthHeaderIncomplete
            else
              let url := URL (StaticFeed j) in
              if negb (String.eqb url "") then
                if HasPrefix (ToLower url) "file://" then Some FileURL
                else if HasPrefix url "http://" || HasPrefix url "https://"
                then None
                else validatePath url "gtfs-static-feed.url"
              else None
        end
    end.

End Platform.

(** [ToAppConfig]. *)
Definition ToAppConfig (j : JSONConfig) : Config :=
  mkConfig (Port j) (EnvFlagToEnvironment (Env j)) (ApiKeys j)
           (ExemptApiKeys j) true (RateLimit j).

End Appconf.

(* ================================================================= *)
(** ** More sample data *)

Module Sample.

(** A query string: the values of [offset], [maxCount] and [limit]. *)
Definition query (offset maxCount limit : list string) : Go.Values :=
  fun key =>
    if String.eqb key "offset" then offset
    else if String.eqb key "maxCount" then maxCount
    else if String.eqb key "limit" then limit
    else [].

(** Route R1 of agency [40] serves the stops of block B1. *)
Definition served : DB :=
  mkDB (trips Scenario.block_b1) (stop_times Scenario.block_b1)
       [Route.mk "R1" "40" None None]
       [Calendar.mk "s1" 1 0 0 0 0 0 0 "20250101" "20251231"]
       [CalendarDate.mk "s1" "20250106" CalendarDate.removed]
       (block_trip_index Scenario.block_b1_indexed)
       (block_trip_entry Scenario.block_b1_indexed) 0.

(** Service [s1] runs every day of 2025, with dates written with
    dashes. *)
Definition dashed : DB :=
  mkDB [] [] []
       [Calendar.mk "s1" 1 1 1 1 1 1 1 "2025-01-01" "2025-12-31"]
       [CalendarDate.mk "s2" "2025-01-06" CalendarDate.added]
       [] [] 0.

(** A configuration file that sets nothing. *)
Definition blank : Appconf.JSONConfig :=
  Appconf.mkJSON 0 "" [] [] 0 (Appconf.mkStatic "" "" "" false) [] "".

End Sample.

(* ================================================================= *)
(** * Properties *)

(** ** Facts about the SQL building blocks *)

Module SqlFacts.

Lemma in_slice_true x xs : Sql.in_slice x xs = true <-> In x xs.
Proof.
  unfold Sql.in_slice. rewrite existsb_exists. split.
  - intros (y & Hy & E). apply String.eqb_eq in E. now subst.
  - intros H. exists x. split; [assumption | apply String.eqb_refl].
Qed.

Lemma in_ints_true x xs : Sql.in_ints x xs = true <-> In x xs.
Proof.
  unfold Sql.in_ints. rewrite existsb_exists. split.
  - intros (y & Hy & E). apply Z.eqb_eq in E. now subst.
  - intros H. exists x. split; [assumption | apply Z.eqb_refl].
Qed.

Lemma eq_null_some a b : Sql.eq_null a (Some b) = true <-> a = Some b.
Proof.
  destruct a as [x|]; simpl.
  - rewrite String.eqb_eq. split; congruence.
  - split; discriminate.
Qed.

Lemma in_distinct x xs : In x (Sql.distinct xs) <-> In x xs.
Proof. apply nodup_In. Qed.

Lemma in_union x xs ys : In x (Sql.union xs ys) <-> In x xs \/ In x ys.
Proof. unfold Sql.union. rewrite in_distinct. apply in_app_iff. Qed.

Lemma one_limit_1 {A} (rows : list A) :
  Sql.one (Sql.limit 1 rows) = Sql.one rows.
Proof. destruct rows; reflexivity. Qed.

(** *** Aggregates *)

Lemma fold_min_le xs : forall a, fold_left Z.min xs a <= a.
Proof.
  induction xs as [|x r IH]; intros a; simpl; [lia|].
  specialize (IH (Z.min a x)). lia.
Qed.

Lemma fold_min_lower xs :
  forall a y, In y xs -> fold_left Z.min xs a <= y.
Proof.
  induction xs as [|x r IH]; intros a y; simpl; [tauto|].
  intros [<- | H].
  - pose proof (fold_min_le r (Z.min a x)). lia.
  - now apply IH.
Qed.

Lemma fold_min_in xs :
  forall a, fold_left Z.min xs a = a \/ In (fold_left Z.min xs a) xs.
Proof.
  induction xs as [|x r IH]; intros a; simpl; [now left|].
  destruct (IH (Z.min a x)) as [E | H]; [|now right; right].
  rewrite E. destruct (Z.min_spec a x) as [[_ ->] | [_ ->]]; auto.
Qed.

Lemma fold_max_ge xs : forall a, a <= fold_left Z.max xs a.
Proof.
  induction xs as [|x r IH]; intros a; simpl; [lia|].
  specialize (IH (Z.max a x)). lia.
Qed.

Lemma fold_max_upper xs :
  forall a y, In y xs -> y <= fold_left Z.max xs a.
Proof.
  induction xs as [|x r IH]; intros a y; simpl; [tauto|].
  intros [<- | H].
  - pose proof (fold_max_ge r (Z.max a x)). lia.
  - now apply IH.
Qed.

Lemma fold_max_in xs :
  forall a, fold_left Z.max xs a = a \/ In (fold_left Z.max xs a) xs.
Proof.
  induction xs as [|x r IH]; intros a; simpl; [now left|].
  destruct (IH (Z.max a x)) as [E | H]; [|now right; right].
  rewrite E. destruct (Z.max_spec a x) as [[_ ->] | [_ ->]]; auto.
Qed.

(** [MIN] is a member of the column and a lower bound of it. *)
Lemma agg_min_spec xs m :
  Sql.agg_min xs = Some m <-> In m xs /\ forall y, In y xs -> m <= y.
Proof.
  destruct xs as [|x r]; simpl.
  - split; [discriminate | tauto].
  - split.
    + intros [= <-]. split.
      * destruct (fold_min_in r x) as [-> | H]; auto.
      * intros y [<- | H]; [apply fold_min_le | now apply fold_min_lower].
    + intros [Hin Hlow]. f_equal.
      assert (fold_left Z.min r x <= m).
      { destruct Hin as [<- | H]; [apply fold_min_le | now apply fold_min_lower]. }
      assert (m <= fold_left Z.min r x).
      { apply Hlow. destruct (fold_min_in r x) as [-> | H']; auto. }
      lia.
Qed.

Lemma agg_max_spec xs m :
  Sql.agg_max xs = Some m <-> In m xs /\ forall y, In y xs -> y <= m.
Proof.
  destruct xs as [|x r]; simpl.
  - split; [discriminate | tauto].
  - split.
    + intros [= <-]. split.
      * destruct (fold_max_in r x) as [-> | H]; auto.
      * intros y [<- | H]; [apply fold_max_ge | now apply fold_max_upper].
    + intros [Hin Hup]. f_equal.
      assert (m <= fold_left Z.max r x).
      { destruct Hin as [<- | H]; [apply fold_max_ge | now apply fold_max_upper]. }
      assert (fold_left Z.max r x <= m).
      { apply Hup. destruct (fold_max_in r x) as [-> | H']; auto. }
      lia.
Qed.

Lemma agg_min_none xs : Sql.agg_min xs = None <-> xs = [].
Proof. destruct xs; simpl; split; congruence. Qed.

Lemma agg_max_none xs : Sql.agg_max xs = None <-> xs = [].
Proof. destruct xs; simpl; split; congruence. Qed.

(** *** [ORDER BY] *)

Section OrderBy.
Context {A K : Type}.
Variable leb : K -> K -> bool.
Variable key : A -> K.

Hypothesis leb_total : forall a b, leb a b = false -> leb b a = true.
Hypothesis leb_trans :
  forall a b c, leb a b = true -> leb b c = true -> leb a c = true.

Let le (x y : A) : Prop := leb (key x) (key y) = true.

Lemma place_perm x l : Permutation (Sql.place leb key x l) (x :: l).
Proof.
  induction l as [|y r IH]; simpl; [reflexivity|].
  destruct (leb (key x) (key y)); [reflexivity|].
  rewrite IH. apply perm_swap.
Qed.

Lemma order_by_perm l : Permutation (Sql.order_by leb key l) l.
Proof.
  induction l as [|x r IH]; simpl; [reflexivity|].
  rewrite place_perm. now constructor.
Qed.

Lemma order_by_in l x : In x (Sql.order_by leb key l) <-> In x l.
Proof.
  split; apply Permutation_in;
    [apply order_by_perm | symmetry; apply order_by_perm].
Qed.

Lemma order_by_length l :
  List.length (Sql.order_by leb key l) = List.length l.
Proof. apply Permutation_length, order_by_perm. Qed.

Lemma place_sorted x l :
  StronglySorted le l -> StronglySorted le (Sql.place leb key x l).
Proof.
  induction 1 as [|y r Hs IH Hy]; simpl.
  - repeat constructor.
  - destruct (leb (key x) (key y)) eqn:E.
    + constructor.
      * now constructor.
      * constructor; [exact E|].
        rewrite Forall_forall in *. intros z Hz.
        unfold le. eapply leb_trans; [exact E | now apply Hy].
    + constructor; [exact IH|].
      rewrite Forall_forall in *. intros z Hz.
      apply (Permutation_in _ (place_perm x r)) in Hz.
      destruct Hz as [<- | Hz]; [now apply leb_total | now apply Hy].
Qed.

Lemma order_by_sorted l : StronglySorted le (Sql.order_by leb key l).
Proof.
  induction l as [|x r IH]; simpl; [constructor | now apply place_sorted].
Qed.

(** The first row in key order is below every row. *)
Lemma order_by_first l x :
  Sql.one (Sql.order_by leb key l) = Some x ->
  In x l /\ forall y, In y l -> leb (key x) (key y) = true.
Proof.
  intros H. pose proof (order_by_sorted l) as S.
  destruct (Sql.order_by leb key l) as [|z r] eqn:E; [discriminate|].
  injection H as ->. split.
  - apply order_by_in. rewrite E. now left.
  - intros y Hy. apply order_by_in in Hy. rewrite E in Hy.
    inversion S as [|? ? _ Hall]; subst.
    destruct Hy as [E' | Hy].
    + rewrite <- E'.
      destruct (leb (key x) (key x)) eqn:R; [reflexivity|].
      pose proof (leb_total _ _ R) as R'. congruence.
    + rewrite Forall_forall in Hall. now apply Hall.
Qed.

Lemma order_by_none l : Sql.one (Sql.order_by leb key l) = None <-> l = [].
Proof.
  split.
  - intros H. destruct l as [|x r]; [reflexivity|].
    pose proof (order_by_length (x :: r)) as L.
    destruct (Sql.order_by leb key (x :: r)); simpl in *; discriminate.
  - now intros ->.
Qed.
End OrderBy.

Lemma zleb_total a b : (a <=? b) = false -> (b <=? a) = true.
Proof. rewrite Z.leb_gt, Z.leb_le. lia. Qed.

Lemma zleb_trans a b c :
  (a <=? b) = true -> (b <=? c) = true -> (a <=? c) = true.
Proof. rewrite !Z.leb_le. lia. Qed.

Lemma zgeb_total a b : (a >=? b) = false -> (b >=? a) = true.
Proof. rewrite !Z.geb_leb, Z.leb_gt, Z.leb_le. lia. Qed.

Lemma zgeb_trans a b c :
  (a >=? b) = true -> (b >=? c) = true -> (a >=? c) = true.
Proof. rewrite !Z.geb_leb, !Z.leb_le. lia. Qed.

Lemma sorted_weaken {A} (R R' : A -> A -> Prop) l :
  (forall a b, R a b -> R' a b) ->
  StronglySorted R l -> StronglySorted R' l.
Proof.
  intros W. induction 1 as [|a r S IH Hall]; constructor; [assumption|].
  rewrite Forall_forall in *. auto.
Qed.

Lemma asc_sorted {A} (col : A -> Z) l :
  StronglySorted (fun a b => col a <= col b) (Sql.asc col l).
Proof.
  eapply sorted_weaken;
    [| apply (order_by_sorted Z.leb col zleb_total zleb_trans)].
  intros a b H. now apply Z.leb_le.
Qed.

Lemma null_first_total a b :
  Sql.null_first_leb a b = false -> Sql.null_first_leb b a = true.
Proof.
  destruct a, b; simpl; try congruence. apply zleb_total.
Qed.

Lemma null_first_trans a b c :
  Sql.null_first_leb a b = true -> Sql.null_first_leb b c = true ->
  Sql.null_first_leb a c = true.
Proof.
  destruct a, b, c; simpl; try congruence. apply zleb_trans.
Qed.

End SqlFacts.

(* ================================================================= *)
(** ** ServiceCalendarResolver *)

Module ResolverSpec.
Import Resolver.

Lemma in_exceptions db date kind s :
  In s (exceptions db date kind) <->
  In (CalendarDate.mk s date kind) (calendar_dates db).
Proof.
  unfold exceptions. rewrite in_map_iff. split.
  - intros (r & <- & H). apply filter_In in H as (H & C).
    apply andb_prop in C as (D & T).
    apply String.eqb_eq in D. apply Z.eqb_eq in T.
    destruct r as [s' d' k']; simpl in *. now subst.
  - intros H. exists (CalendarDate.mk s date kind). split; [reflexivity|].
    apply filter_In. split; [assumption|]. simpl.
    now rewrite String.eqb_refl, Z.eqb_refl.
Qed.

(** The result is (Base - Removed) ∪ Added. *)
Lemma active_iff db date s :
  In s (GetActiveServiceIDsForDate db date) <->
  (In s (base_services db date) /\ ~ In s (removed_services db date))
  \/ In s (added_services db date).
Proof.
  unfold GetActiveServiceIDsForDate.
  rewrite SqlFacts.in_union, !SqlFacts.in_distinct, filter_In.
  rewrite negb_true_iff, <- not_true_iff_false, SqlFacts.in_slice_true.
  reflexivity.
Qed.

(** The weekly pattern of the Monday scenario does cover both dates: the
    removal is what keeps [s1] out on 6 January 2025. *)
Example monday_scenario :
  In "s1" (base_services Scenario.mondays "20250106")
  /\ GetActiveServiceIDsForDate Scenario.mondays "20250106" = ["s2"]
  /\ GetActiveServiceIDsForDate Scenario.mondays "20250113" = ["s1"].
Proof. repeat split; vm_compute; auto. Qed.

Lemma mondays_keyed : calendar_dates_keyed Scenario.mondays.
Proof.
  intros r1 r2 H1 H2. simpl in H1, H2.
  destruct H1 as [<- | [<- | []]], H2 as [<- | [<- | []]];
    simpl; intros; congruence.
Defined.

(** The key matters: were a service both removed and added on one
    date, the addition would win. *)
Example conflicting_exceptions :
  GetActiveServiceIDsForDate Scenario.conflicting "20250106" = ["s1"].
Proof. reflexivity. Qed.

(** C3. A service removed on date [d] by a calendar_dates row is not in
    the active set of [d], whatever its calendar row says (the table
    holds at most one exception per service and date). *)
Theorem removed_service_is_inactive db d s :
  calendar_dates_keyed db ->
  In (CalendarDate.mk s d CalendarDate.removed) (calendar_dates db) ->
  ~ In s (GetActiveServiceIDsForDate db d).
Proof.
  intros K R. rewrite active_iff. intros [[_ N] | A].
  - apply N. now apply in_exceptions.
  - apply in_exceptions in A.
    specialize (K _ _ R A eq_refl eq_refl). discriminate K.
Qed.

Lemma removed_service_is_inactive_witness :
  calendar_dates_keyed Scenario.mondays
  /\ In "s1" (base_services Scenario.mondays "20250106")
  /\ ~ In "s1" (GetActiveServiceIDsForDate Scenario.mondays "20250106").
Proof.
  split; [exact mondays_keyed|]. split; [vm_compute; auto|].
  apply (removed_service_is_inactive Scenario.mondays "20250106" "s1").
  - exact mondays_keyed.
  - simpl. auto.
Defined.

(** C4. A service added on date [d] by a calendar_dates row is in the
    active set of [d], with or without a calendar row covering [d]. *)
Theorem added_service_is_active db d s :
  In (CalendarDate.mk s d CalendarDate.added) (calendar_dates db) ->
  In s (GetActiveServiceIDsForDate db d).
Proof.
  intros A. rewrite active_iff. right. now apply in_exceptions.
Qed.

Lemma added_service_is_active_witness :
  ~ In "s2" (map Calendar.id (calendar Scenario.mondays))
  /\ In "s2" (GetActiveServiceIDsForDate Scenario.mondays "20250106").
Proof.
  split.
  - simpl. intros [E | []]. discriminate E.
  - apply (added_service_is_active Scenario.mondays "20250106" "s2").
    simpl. auto.
Defined.

End ResolverSpec.

(* ================================================================= *)
(** ** ActiveTripMatcher *)

Module MatcherSpec.
Import Matcher.

Lemma in_stop_times_of db trip s :
  In s (stop_times_of db trip) <->
  In s (stop_times db) /\ StopTime.trip_id s = trip.
Proof.
  unfold stop_times_of. rewrite filter_In, String.eqb_eq. reflexivity.
Qed.

Lemma in_st_first_rows db tr s :
  In s (st_first_rows db tr) <->
  In s (stop_times_of db (Trip.id tr))
  /\ min_stop_sequence db (Trip.id tr) = Some (StopTime.stop_sequence s).
Proof.
  unfold st_first_rows. rewrite filter_In, in_stop_times_of.
  rewrite andb_true_iff, String.eqb_eq. unfold Sql.eq_scalar.
  destruct (min_stop_sequence db (Trip.id tr)) as [m|].
  - rewrite Z.eqb_eq. intuition congruence.
  - intuition congruence.
Qed.

Lemma in_st_last_rows db tr s :
  In s (st_last_rows db tr) <->
  In s (stop_times_of db (Trip.id tr))
  /\ max_stop_sequence db (Trip.id tr) = Some (StopTime.stop_sequence s).
Proof.
  unfold st_last_rows. rewrite filter_In, in_stop_times_of.
  rewrite andb_true_iff, String.eqb_eq. unfold Sql.eq_scalar.
  destruct (max_stop_sequence db (Trip.id tr)) as [m|].
  - rewrite Z.eqb_eq. intuition congruence.
  - intuition congruence.
Qed.

Lemma in_spans_of db tr r :
  In r (spans_of db tr) <->
  t r = tr /\ In (st_first r) (st_first_rows db tr)
  /\ In (st_last r) (st_last_rows db tr).
Proof.
  unfold spans_of. rewrite in_flat_map. split.
  - intros (f & Hf & H). apply in_map_iff in H as (l & <- & Hl). now simpl.
  - intros (E & Hf & Hl). exists (st_first r). split; [assumption|].
    apply in_map_iff. exists (st_last r). split; [|assumption].
    destruct r; simpl in *. now subst.
Qed.

Section Monotone.
Variable db : DB.
Hypothesis mono : stop_times_monotone db.

(** On monotone stop events the first stop's departure is the earliest
    departure and the last stop's arrival is the latest arrival. *)
Lemma first_stop_departs_first tr s :
  In s (st_first_rows db tr) ->
  first_departure db (Trip.id tr) = Some (StopTime.departure_time s).
Proof.
  intros H. apply in_st_first_rows in H as (Hs & Hm).
  apply SqlFacts.agg_min_spec in Hm as (_ & Hlow).
  apply SqlFacts.agg_min_spec. split.
  - now apply in_map.
  - intros y Hy. apply in_map_iff in Hy as (s' & <- & Hs').
    assert (StopTime.stop_sequence s <= StopTime.stop_sequence s')
      by (apply Hlow; now apply in_map).
    apply in_stop_times_of in Hs as (? & ?).
    apply in_stop_times_of in Hs' as (? & ?).
    apply (mono s s'); congruence.
Qed.

Lemma last_stop_arrives_last tr s :
  In s (st_last_rows db tr) ->
  last_arrival db (Trip.id tr) = Some (StopTime.arrival_time s).
Proof.
  intros H. apply in_st_last_rows in H as (Hs & Hm).
  apply SqlFacts.agg_max_spec in Hm as (_ & Hup).
  apply SqlFacts.agg_max_spec. split.
  - now apply in_map.
  - intros y Hy. apply in_map_iff in Hy as (s' & <- & Hs').
    assert (StopTime.stop_sequence s' <= StopTime.stop_sequence s)
      by (apply Hup; now apply in_map).
    apply in_stop_times_of in Hs as (? & ?).
    apply in_stop_times_of in Hs' as (? & ?).
    apply (mono s' s); congruence.
Qed.

Lemma span_interval tr r :
  In r (spans_of db tr) ->
  first_departure db (Trip.id tr) = Some (first_departure_time r)
  /\ last_arrival db (Trip.id tr) = Some (last_arrival_time r).
Proof.
  intros H. apply in_spans_of in H as (_ & Hf & Hl). split.
  - now apply first_stop_departs_first.
  - now apply last_stop_arrives_last.
Qed.

(** A trip with stop events has a span row. *)
Lemma span_exists tr fd la :
  first_departure db (Trip.id tr) = Some fd ->
  last_arrival db (Trip.id tr) = Some la ->
  exists r, In r (spans_of db tr)
            /\ first_departure_time r = fd /\ last_arrival_time r = la.
Proof.
  intros Hfd Hla.
  destruct (min_stop_sequence db (Trip.id tr)) as [m|] eqn:Em.
  2:{ apply SqlFacts.agg_min_none, map_eq_nil in Em.
      unfold first_departure in Hfd. now rewrite Em in Hfd. }
  destruct (max_stop_sequence db (Trip.id tr)) as [x|] eqn:Ex.
  2:{ apply SqlFacts.agg_max_none, map_eq_nil in Ex.
      unfold first_departure in Hfd. now rewrite Ex in Hfd. }
  pose proof Em as Em'. pose proof Ex as Ex'.
  apply SqlFacts.agg_min_spec in Em' as (Hm & _).
  apply SqlFacts.agg_max_spec in Ex' as (Hx & _).
  apply in_map_iff in Hm as (f & <- & Hf).
  apply in_map_iff in Hx as (l & <- & Hl).
  assert (Ff : In f (st_first_rows db tr)) by now apply in_st_first_rows.
  assert (Fl : In l (st_last_rows db tr)) by now apply in_st_last_rows.
  exists (mkSpan tr f l). split; [now apply in_spans_of|].
  unfold first_departure_time, last_arrival_time. simpl.
  apply first_stop_departs_first in Ff.
  apply last_stop_arrives_last in Fl. split; congruence.
Qed.

(** The rows kept by [GetActiveTripInBlockAtTime] are the matches. *)
Lemma block_hit_matches block ids now r :
  In r (block_hits db (Some block) ids now) ->
  block_match db block ids now (t r)
              (first_departure_time r) (last_arrival_time r).
Proof.
  unfold block_hits. rewrite filter_In, in_flat_map.
  intros ((tr & Htr & Hr) & W). unfold in_block_at in W.
  rewrite !andb_true_iff, SqlFacts.eq_null_some, SqlFacts.in_slice_true,
    Z.leb_le, Z.geb_leb, Z.leb_le in W.
  destruct W as (((B & S) & D) & L).
  pose proof (span_interval _ _ Hr) as (Hfd & Hla).
  apply in_spans_of in Hr as (E & _). rewrite E in *.
  repeat split; assumption.
Qed.

Lemma block_match_hits block ids now tr fd la :
  block_match db block ids now tr fd la ->
  exists r, In r (block_hits db (Some block) ids now)
            /\ t r = tr /\ first_departure_time r = fd.
Proof.
  intros (Htr & B & S & Hfd & Hla & D & L).
  destruct (span_exists _ _ _ Hfd Hla) as (r & Hr & Ef & El).
  exists r. pose proof Hr as Hr'. apply in_spans_of in Hr' as (E & _).
  repeat split; [|assumption|assumption].
  unfold block_hits. rewrite filter_In, in_flat_map. split.
  - now exists tr.
  - unfold in_block_at.
    rewrite !andb_true_iff, SqlFacts.eq_null_some, SqlFacts.in_slice_true,
      Z.leb_le, Z.geb_leb, Z.leb_le.
    rewrite E, Ef, El. repeat split; assumption.
Qed.
End Monotone.

Section MonotoneRoute.
Variable db : DB.
Hypothesis mono : stop_times_monotone db.

Lemma in_route_rows bte r :
  In (bte, r) (route_rows db) <->
  In (t r) (trips db) /\ In bte (block_trip_entry db)
  /\ BlockTripEntry.trip_id bte = Trip.id (t r)
  /\ In r (spans_of db (t r)).
Proof.
  unfold route_rows, entries_of. rewrite in_flat_map. split.
  - intros (tr & Htr & H). apply in_flat_map in H as (e & He & H).
    apply in_map_iff in H as (r' & [= <- <-] & Hr).
    apply filter_In in He as (He & E). apply String.eqb_eq in E.
    pose proof Hr as Hr'. apply in_spans_of in Hr' as (-> & _).
    repeat split; auto.
  - intros (Htr & He & E & Hr). exists (t r). split; [assumption|].
    apply in_flat_map. exists bte. split.
    + apply filter_In. split; [assumption|]. now apply String.eqb_eq.
    + apply in_map_iff. now exists r.
Qed.

Lemma route_hit_matches index_ids route ids now from row :
  In row (route_hits db index_ids route ids now from) ->
  route_match db index_ids route ids now from (t (snd row))
              (first_departure_time (snd row))
              (last_arrival_time (snd row)).
Proof.
  destruct row as (bte, r). unfold route_hits.
  rewrite filter_In, in_route_rows. intros ((Htr & He & E & Hr) & W).
  unfold on_route_at in W.
  rewrite !andb_true_iff, SqlFacts.in_ints_true, String.eqb_eq,
    SqlFacts.in_slice_true, Z.leb_le, Z.geb_leb, Z.leb_le in W.
  destruct W as ((((I & R) & S) & D) & L).
  pose proof (span_interval db mono _ _ Hr) as (Hfd & Hla). simpl.
  repeat split; try assumption. now exists bte.
Qed.

Lemma route_match_hits index_ids route ids now from tr fd la :
  route_match db index_ids route ids now from tr fd la ->
  exists row, In row (route_hits db index_ids route ids now from)
              /\ t (snd row) = tr /\ first_departure_time (snd row) = fd.
Proof.
  intros (Htr & R & (bte & He & E & I & S) & Hfd & Hla & D & L).
  destruct (span_exists db mono _ _ _ Hfd Hla) as (r & Hr & Ef & El).
  pose proof Hr as Hr'. apply in_spans_of in Hr' as (Et & _).
  exists (bte, r). simpl. repeat split; [|assumption|assumption].
  unfold route_hits. rewrite filter_In, in_route_rows. split.
  - rewrite Et. repeat split; assumption.
  - unfold on_route_at.
    rewrite !andb_true_iff, SqlFacts.in_ints_true, String.eqb_eq,
      SqlFacts.in_slice_true, Z.leb_le, Z.geb_leb, Z.leb_le.
    rewrite Et, Ef, El. repeat split; assumption.
Qed.
End MonotoneRoute.

Lemma block_b1_monotone : stop_times_monotone Scenario.block_b1.
Proof.
  intros a b Ha Hb. simpl in Ha, Hb.
  repeat (destruct Ha as [<- | Ha]; [|]); try contradiction;
    repeat (destruct Hb as [<- | Hb]; [|]); try contradiction;
    simpl; intros; try discriminate; lia.
Defined.

(** Monotone stop events matter: the query reads the departure of the
    first stop and the arrival of the last stop, which on a trip that
    runs backwards are not the earliest departure and latest arrival. *)
Example backwards_trip :
  first_departure Scenario.backwards "T1" = Some 100
  /\ last_arrival Scenario.backwards "T1" = Some 300
  /\ GetActiveTripInBlockAtTime Scenario.backwards (Some "B1") ["s1"] 150
     = None.
Proof. repeat split. Qed.

(** C1. [GetActiveTripInBlockAtTime] returns a trip of the block whose
    service is active and whose interval, from its earliest departure
    to its latest arrival, contains the query time; no matching trip
    departs earlier than the one returned; no row is returned exactly
    when no trip matches.  On block B1 the query answers T1 at 29000,
    T2 at 29600 and nothing at 29450. *)
Theorem active_trip_in_block db block service_ids now :
  stop_times_monotone db ->
  match GetActiveTripInBlockAtTime db (Some block) service_ids now with
  | Some id =>
      exists tr fd la,
        Trip.id tr = id
        /\ block_match db block service_ids now tr fd la
        /\ forall tr' fd' la',
             block_match db block service_ids now tr' fd' la' -> fd <= fd'
  | None =>
      forall tr fd la, ~ block_match db block service_ids now tr fd la
  end
  /\ GetActiveTripInBlockAtTime Scenario.block_b1 (Some "B1") ["s1"] 29000
     = Some "T1"
  /\ GetActiveTripInBlockAtTime Scenario.block_b1 (Some "B1") ["s1"] 29600
     = Some "T2"
  /\ GetActiveTripInBlockAtTime Scenario.block_b1 (Some "B1") ["s1"] 29450
     = None.
Proof.
  intros mono. split; [|repeat split; reflexivity].
  unfold GetActiveTripInBlockAtTime. rewrite SqlFacts.one_limit_1.
  destruct (Sql.one _) as [r|] eqn:E; simpl.
  - apply (SqlFacts.order_by_first _ _ SqlFacts.zleb_total
             SqlFacts.zleb_trans) in E as (Hr & Hmin).
    exists (t r), (first_departure_time r), (last_arrival_time r).
    split; [reflexivity|]. split; [now apply block_hit_matches|].
    intros tr' fd' la' M.
    destruct (block_match_hits db mono _ _ _ _ _ _ M) as (r' & Hr' & _ & <-).
    apply Z.leb_le. now apply Hmin.
  - apply SqlFacts.order_by_none in E. intros tr fd la M.
    destruct (block_match_hits db mono _ _ _ _ _ _ M) as (r' & Hr' & _).
    rewrite E in Hr'. contradiction.
Qed.

Lemma active_trip_in_block_witness :
  stop_times_monotone Scenario.block_b1
  /\ exists tr fd la,
       Trip.id tr = "T1"
       /\ block_match Scenario.block_b1 "B1" ["s1"] 29000 tr fd la.
Proof.
  split; [exact block_b1_monotone|].
  pose proof (active_trip_in_block Scenario.block_b1 "B1" ["s1"] 29000
                block_b1_monotone) as (H & _).
  change (GetActiveTripInBlockAtTime Scenario.block_b1 (Some "B1")
            ["s1"] 29000) with (Some "T1") in H.
  destruct H as (tr & fd & la & E & M & _).
  now exists tr, fd, la.
Defined.

(** C2, as stated, fails: two trips of route R1 leave at 28800 and both
    match; the query answers T2, the row stored first, although T1 has
    the smaller identifier. *)
Lemma route_tie_ignores_identifier :
  ~ latest_start_then_identifier Scenario.same_start [1; 2] "R1" ["s1"]
      29600 29300
      (GetActiveTripForRouteAtTime Scenario.same_start [1; 2] "R1" ["s1"]
                                   29600 29300).
Proof.
  change (GetActiveTripForRouteAtTime Scenario.same_start [1; 2] "R1"
            ["s1"] 29600 29300)
    with (Some (Scenario.trip "T2" "s1" "B2")).
  intros (fd & la & (_ & _ & _ & Hfd & _) & Hall).
  vm_compute in Hfd. injection Hfd as <-.
  destruct (Hall (Scenario.trip "T1" "s1" "B1") 28800 29400) as [L | (_ & L)].
  - repeat split; try (vm_compute; tauto); try (intro; discriminate).
    exists (BlockTripEntry.mk 2 "T1" (Some "B1") "s1" 0).
    repeat split; vm_compute; tauto.
  - lia.
  - vm_compute in L. discriminate L.
Qed.

(** C2, amended. [GetActiveTripForRouteAtTime] returns a trip of the
    route, entered in a candidate index under an active service, whose
    earliest departure is at or before the current time and whose
    latest arrival is at or after the from-time; no matching trip
    departs later than the one returned; no row is returned exactly
    when no trip matches.  With candidates leaving at 28800 and 29500
    that both match at 29600 it answers the one leaving at 29500. *)
Theorem active_trip_for_route db index_ids route service_ids now from :
  stop_times_monotone db ->
  latest_start db index_ids route service_ids now from
    (GetActiveTripForRouteAtTime db index_ids route service_ids now from)
  /\ GetActiveTripForRouteAtTime Scenario.block_b1_indexed [1] "R1" ["s1"]
                                 29600 29300
     = Some (Scenario.trip "T2" "s1" "B1")
  /\ first_departure Scenario.block_b1_indexed "T1" = Some 28800
  /\ first_departure Scenario.block_b1_indexed "T2" = Some 29500.
Proof.
  intros mono. split; [|repeat split; reflexivity].
  unfold GetActiveTripForRouteAtTime. rewrite SqlFacts.one_limit_1.
  destruct (Sql.one _) as [row|] eqn:E; simpl.
  - apply (SqlFacts.order_by_first _ _ SqlFacts.zgeb_total
             SqlFacts.zgeb_trans) in E as (Hr & Hmax).
    exists (first_departure_time (snd row)), (last_arrival_time (snd row)).
    split; [now apply route_hit_matches|].
    intros tr' fd' la' M.
    destruct (route_match_hits db mono _ _ _ _ _ _ _ _ M)
      as (row' & Hr' & _ & <-).
    apply Hmax in Hr'. rewrite Z.geb_leb in Hr'. now apply Z.leb_le.
  - apply SqlFacts.order_by_none in E. intros tr fd la M.
    destruct (route_match_hits db mono _ _ _ _ _ _ _ _ M) as (row' & Hr' & _).
    rewrite E in Hr'. contradiction.
Qed.

Lemma active_trip_for_route_witness :
  stop_times_monotone Scenario.block_b1_indexed
  /\ latest_start Scenario.block_b1_indexed [1] "R1" ["s1"] 29600 29300
       (Some (Scenario.trip "T2" "s1" "B1")).
Proof.
  split; [exact block_b1_monotone|].
  exact (proj1 (active_trip_for_route Scenario.block_b1_indexed [1] "R1"
                  ["s1"] 29600 29300 block_b1_monotone)).
Defined.

End MatcherSpec.

(* ================================================================= *)
(** ** ScheduleWindowQuery *)

Module WindowSpec.
Import Window.

(** A keyed table holds exactly one row for a key that is present. *)
Lemma keyed_lookup (ts : list Trip.t) tr :
  NoDup (map Trip.id ts) -> In tr ts ->
  filter (fun x => String.eqb (Trip.id tr) (Trip.id x)) ts = [tr].
Proof.
  induction ts as [|a r IH]; simpl; [tauto|].
  intros N H. inversion N as [|? ? Hn N']; subst.
  destruct H as [-> | H].
  - rewrite String.eqb_refl. f_equal.
    clear IH N N'. induction r as [|b r IH]; simpl; [reflexivity|].
    destruct (String.eqb_spec (Trip.id tr) (Trip.id b)) as [E|_].
    + exfalso. apply Hn. left. now symmetry.
    + apply IH. intros Hin. apply Hn. now right.
  - destruct (String.eqb_spec (Trip.id tr) (Trip.id a)) as [E|_].
    + exfalso. apply Hn. rewrite <- E. now apply in_map.
    + now apply IH.
Qed.

Lemma joined_once db (P : StopTime.t -> bool) :
  trips_keyed db -> stop_times_refer_to_trips db ->
  forall sts, incl sts (stop_times db) ->
  map st (filter (fun r => P (st r))
                 (flat_map (fun s => map (with_trip s) (trips_of db s)) sts))
  = filter P sts.
Proof.
  intros K F. induction sts as [|s r IH]; intros I; simpl; [reflexivity|].
  rewrite filter_app, map_app, IH
    by (intros x Hx; apply I; now right).
  destruct (F s (I s (or_introl eq_refl))) as (tr & Htr & E).
  unfold trips_of at 1. rewrite <- E, (keyed_lookup _ _ K Htr). simpl.
  destruct (P s); reflexivity.
Qed.

Lemma sorted_app_cross {A} (R : A -> A -> Prop) (l1 l2 : list A) :
  StronglySorted R (l1 ++ l2) ->
  forall x y, In x l1 -> In y l2 -> R x y.
Proof.
  induction l1 as [|a r IH]; simpl; [tauto|].
  intros S x y Hx Hy. inversion S as [|? ? S' Hall]; subst.
  destruct Hx as [<- | Hx].
  - rewrite Forall_forall in Hall. apply Hall, in_or_app. now right.
  - now apply IH.
Qed.

Lemma in_window_spec stop ws we s :
  in_window stop ws we s = true <->
  StopTime.stop_id s = stop
  /\ (ws <= StopTime.arrival_time s <= we
      \/ ws <= StopTime.departure_time s <= we).
Proof.
  unfold in_window, Sql.between.
  rewrite andb_true_iff, orb_true_iff, !andb_true_iff, String.eqb_eq,
    !Z.leb_le. tauto.
Qed.

(** C5. [GetStopTimesForStopInWindow] returns, once each, the stop
    events of the stop whose arrival or departure time lies in the
    closed window, by arrival time ascending. *)
Theorem stop_times_in_window db stop ws we :
  trips_keyed db -> stop_times_refer_to_trips db ->
  let rows := GetStopTimesForStopInWindow db stop ws we in
  (forall s, In s (map st rows) <->
             In s (stop_times db)
             /\ StopTime.stop_id s = stop
             /\ (ws <= StopTime.arrival_time s <= we
                 \/ ws <= StopTime.departure_time s <= we))
  /\ Permutation (map st rows)
                 (filter (in_window stop ws we) (stop_times db))
  /\ StronglySorted
       (fun a b => StopTime.arrival_time (st a)
                   <= StopTime.arrival_time (st b))
       rows.
Proof.
  intros K F rows.
  assert (P : Permutation (map st rows)
                (filter (in_window stop ws we) (stop_times db))).
  { unfold rows, GetStopTimesForStopInWindow, Sql.asc.
    rewrite SqlFacts.order_by_perm.
    rewrite (joined_once db (in_window stop ws we) K F);
      [reflexivity | apply incl_refl]. }
  split; [|split].
  - intros s. split.
    + intros H. apply (Permutation_in _ P), filter_In in H as (Hs & W).
      apply in_window_spec in W. tauto.
    + intros (Hs & W). apply (Permutation_in _ (Permutation_sym P)).
      apply filter_In. split; [assumption|]. now apply in_window_spec.
  - exact P.
  - unfold rows, GetStopTimesForStopInWindow, Sql.asc.
    apply (SqlFacts.asc_sorted (fun r => StopTime.arrival_time (st r))).
Qed.

Lemma stop_times_in_window_witness :
  trips_keyed Scenario.one_stop /\ stop_times_refer_to_trips Scenario.one_stop
  /\ Permutation
       (map st (GetStopTimesForStopInWindow Scenario.one_stop "A" 110 150))
       [Scenario.stop_event "T1" 1 100 110 "A"].
Proof.
  assert (K : trips_keyed Scenario.one_stop).
  { unfold trips_keyed. simpl. repeat constructor. simpl. tauto. }
  assert (F : stop_times_refer_to_trips Scenario.one_stop).
  { intros s H. exists (Scenario.trip "T1" "s1" "B1"). simpl in *.
    split; [tauto|]. destruct H as [<- | [<- | []]]; reflexivity. }
  split; [exact K|]. split; [exact F|].
  exact (proj1 (proj2 (stop_times_in_window Scenario.one_stop "A" 110 150 K F))).
Defined.

Lemma sorted_prefix {A} (R : A -> A -> Prop) (l1 l2 : list A) :
  StronglySorted R (l1 ++ l2) -> StronglySorted R l1.
Proof.
  induction l1 as [|a r IH]; simpl; [constructor|].
  intros S. inversion S as [|? ? S' Hall]; subst.
  constructor; [now apply IH|].
  rewrite Forall_forall in *. intros x Hx. apply Hall, in_or_app. now left.
Qed.

Lemma sorted_map {A B} (f : A -> B) (R : A -> A -> Prop)
      (R' : B -> B -> Prop) l :
  (forall a b, R a b -> R' (f a) (f b)) ->
  StronglySorted R l -> StronglySorted R' (map f l).
Proof.
  intros W. induction 1 as [|a r S IH Hall]; simpl; constructor;
    [assumption|].
  rewrite Forall_forall in *. intros y Hy.
  apply in_map_iff in Hy as (x & <- & Hx). auto.
Qed.

Lemma select_row_arrival j : ad_arrival_time (select_row j) = event_arrival j.
Proof. destruct j as ((s, tr), r). reflexivity. Qed.

(** C10. [GetArrivalsAndDeparturesForStop] returns at most 50 events:
    the first 50 of the stop's events in arrival-time order; events
    beyond the fiftieth are dropped, and none of them arrives before a
    returned one. *)
Theorem arrivals_and_departures_capped db stop :
  let all := Sql.asc event_arrival (events_at db stop) in
  let rows := GetArrivalsAndDeparturesForStop db stop in
  (List.length rows <= 50)%nat
  /\ List.length rows = Nat.min 50 (List.length (events_at db stop))
  /\ rows = map select_row (firstn 50 all)
  /\ Permutation all (events_at db stop)
  /\ StronglySorted (fun a b => event_arrival a <= event_arrival b) all
  /\ StronglySorted (fun a b => ad_arrival_time a <= ad_arrival_time b) rows
  /\ (forall x y, In x (firstn 50 all) -> In y (skipn 50 all) ->
                  event_arrival x <= event_arrival y)
  /\ List.length (events_at Scenario.busy_stop "S") = 60%nat
  /\ map ad_arrival_time (GetArrivalsAndDeparturesForStop Scenario.busy_stop "S")
     = map Z.of_nat (seq 940 50).
Proof.
  intros all rows.
  assert (S : StronglySorted (fun a b => event_arrival a <= event_arrival b)
                             all) by apply SqlFacts.asc_sorted.
  assert (L : List.length rows
              = Nat.min 50 (List.length (events_at db stop))).
  { unfold rows, GetArrivalsAndDeparturesForStop, Sql.limit.
    rewrite length_map, length_firstn. unfold Sql.asc.
    now rewrite SqlFacts.order_by_length. }
  split; [rewrite L; apply Nat.le_min_l|].
  split; [exact L|]. split; [reflexivity|].
  split; [apply SqlFacts.order_by_perm|]. split; [exact S|].
  rewrite <- (firstn_skipn 50 all) in S. split; [|split].
  - unfold rows, GetArrivalsAndDeparturesForStop, Sql.limit. fold all.
    apply (sorted_map select_row
             (fun a b => event_arrival a <= event_arrival b)).
    + intros a b H. now rewrite !select_row_arrival.
    + exact (sorted_prefix _ _ _ S).
  - exact (sorted_app_cross _ _ _ S).
  - split; vm_compute; reflexivity.
Qed.

End WindowSpec.

(* ================================================================= *)
(** ** BlockTripIndexBuilder *)

Module BuilderSpec.
Import Builder.

(** *** The builder reads only the trips and their stop events *)

Section ScheduleOnly.
Variables d d' : DB.
Hypothesis same_trips : trips d = trips d'.
Hypothesis same_stop_times : stop_times d = stop_times d'.

Lemma first_departure_ext trip :
  Matcher.first_departure d trip = Matcher.first_departure d' trip.
Proof.
  unfold Matcher.first_departure, Matcher.stop_times_of.
  now rewrite same_stop_times.
Qed.

Lemma last_arrival_ext trip :
  Matcher.last_arrival d trip = Matcher.last_arrival d' trip.
Proof.
  unfold Matcher.last_arrival, Matcher.stop_times_of.
  now rewrite same_stop_times.
Qed.

Lemma stop_sequence_key_ext trip :
  stop_sequence_key d trip = stop_sequence_key d' trip.
Proof.
  unfold stop_sequence_key, Matcher.stop_times_of.
  now rewrite same_stop_times.
Qed.

Lemma name_of_ext tr : name_of d tr = name_of d' tr.
Proof. unfold name_of. now rewrite stop_sequence_key_ext. Qed.

Lemma group_names_ext : group_names d = group_names d'.
Proof.
  unfold group_names. rewrite same_trips. f_equal.
  apply flat_map_ext. intros tr. now rewrite name_of_ext.
Qed.

Lemma members_ext g : members d g = members d' g.
Proof.
  unfold members. rewrite same_trips. apply filter_ext.
  intros tr. unfold in_group. now rewrite name_of_ext.
Qed.

Lemma entries_for_ext id ms : entries_for d id ms = entries_for d' id ms.
Proof.
  unfold entries_for, slots, by_first_departure.
  apply flat_map_ext. intros s. do 2 f_equal.
  induction (filter _ ms) as [|x r IH]; simpl; [reflexivity|].
  rewrite IH. clear IH.
  induction (Sql.order_by _ _ r) as [|y q IH]; simpl; [reflexivity|].
  rewrite !first_departure_ext, IH. reflexivity.
Qed.

Lemma index_rows_ext now gs :
  forall from, index_rows d now from gs = index_rows d' now from gs.
Proof.
  induction gs as [|g r IH]; intros from; simpl; [reflexivity|].
  now rewrite members_ext, IH.
Qed.

Lemma entry_rows_ext gs :
  forall from, entry_rows d from gs = entry_rows d' from gs.
Proof.
  induction gs as [|g r IH]; intros from; simpl; [reflexivity|].
  now rewrite members_ext, entries_for_ext, IH.
Qed.
End ScheduleOnly.

(** *** Running the statements on a store that does not fail *)

Lemma largest_id_last rows r :
  largest_id (rows ++ [r]) = Z.max (largest_id rows) (BlockTripIndex.id r).
Proof.
  unfold largest_id. now rewrite map_app, fold_left_app.
Qed.

Lemma largest_id_nonneg rows : 0 <= largest_id rows.
Proof. unfold largest_id. apply SqlFacts.fold_max_ge. Qed.

Lemma run_entries es :
  forall c,
    Store.for_each (fun e => Store.exec (CreateBlockTripEntry e)) es
                   Store.healthy c
    = (Store.mkConn (set_entries (Store.db c)
                                 (block_trip_entry (Store.db c) ++ es))
                    (Store.sent c + List.length es),
       Some tt).
Proof.
  induction es as [|e r IH]; intros [d n]; simpl.
  - unfold Store.ret. destruct d; unfold set_entries; simpl.
    now rewrite app_nil_r, Nat.add_0_r.
  - unfold Store.bind, Store.exec at 1. simpl. rewrite IH. simpl.
    unfold set_entries; simpl.
    now rewrite <- app_assoc, Nat.add_succ_r.
Qed.

Lemma run_exec {A} (stmt : DB -> DB * A) c :
  Store.exec stmt Store.healthy c
  = (Store.mkConn (fst (stmt (Store.db c))) (S (Store.sent c)),
     Some (snd (stmt (Store.db c)))).
Proof.
  unfold Store.exec, Store.healthy. now destruct (stmt (Store.db c)).
Qed.

Lemma run_bind {A B} (m : Store.M A) (k : A -> Store.M B) f c c' a :
  m f c = (c', Some a) -> Store.bind m k f c = k a f c'.
Proof. unfold Store.bind. now intros ->. Qed.

Lemma run_snapshot {B} (k : DB -> Store.M B) f c :
  Store.bind Store.snapshot k f c = k (Store.db c) f c.
Proof. reflexivity. Qed.

Section Run.
Variable autoincrement : bool.
Variable src : DB.
Variable now : Z.

Lemma run_group g c :
  persist_group autoincrement src now g Store.healthy c
  = (let d := Store.db c in
     let id := next_id autoincrement d in
     Store.mkConn
       (set_entries
          (fst (CreateBlockTripIndex autoincrement (index_key_of g)
                  (String.concat "," (services_of (members src g)))
                  (snd g) now d))
          (block_trip_entry d ++ entries_for src id (members src g)))
       (S (Store.sent c)
        + List.length (entries_for src id (members src g))),
     Some tt).
Proof.
  unfold persist_group.
  rewrite (run_bind _ _ _ _ _ _ (run_exec _ _)), run_entries.
  reflexivity.
Qed.

Lemma run_groups gs :
  forall c,
    counter_ahead autoincrement (Store.db c) ->
    exists c',
      Store.for_each (persist_group autoincrement src now) gs
                     Store.healthy c = (c', Some tt)
      /\ trips (Store.db c') = trips (Store.db c)
      /\ stop_times (Store.db c') = stop_times (Store.db c)
      /\ block_trip_index (Store.db c')
         = block_trip_index (Store.db c)
           ++ index_rows src now (next_id autoincrement (Store.db c)) gs
      /\ block_trip_entry (Store.db c')
         = block_trip_entry (Store.db c)
           ++ entry_rows src (next_id autoincrement (Store.db c)) gs
      /\ counter_ahead autoincrement (Store.db c')
      /\ high_water autoincrement (Store.db c')
         = high_water autoincrement (Store.db c)
           + Z.of_nat (List.length gs).
Proof.
  induction gs as [|g r IH]; intros [d n] I.
  - exists (Store.mkConn d n). simpl.
    rewrite !app_nil_r, Z.add_0_r. repeat split; auto.
  - simpl Store.for_each.
    rewrite (run_bind _ _ _ _ _ _ (run_group g _)).
    simpl Store.db in *. cbv zeta.
    set (id := next_id autoincrement d) in *.
    pose proof (largest_id_nonneg (block_trip_index d)) as P.
    match goal with
    | |- context [Store.for_each _ r _ ?c] =>
        destruct (IH c) as (c' & Run & Ht & Hs & Hi & He & I' & Hw)
    end.
    { intros A. specialize (I A). cbn [Store.db fst].
      unfold CreateBlockTripIndex, set_entries, set_indices.
      cbn [block_trip_index index_seq fst].
      rewrite A, largest_id_last. cbn [BlockTripIndex.id].
      unfold next_id. lia. }
    assert (N : forall es key sids pat,
               next_id autoincrement
                 (set_entries
                    (set_indices d
                       (block_trip_index d
                          ++ [BlockTripIndex.mk id key sids pat now])
                       (if autoincrement then id else index_seq d))
                    es)
               = id + 1).
    { intros es key sids pat. unfold next_id at 1.
      unfold set_entries, set_indices. cbn [block_trip_index index_seq].
      rewrite largest_id_last. cbn [BlockTripIndex.id].
      unfold id, next_id. destruct autoincrement; lia. }
    exists c'. split; [exact Run|].
    simpl in Ht, Hs, Hi, He, Hw. rewrite N in Hi, He.
    repeat split; try assumption.
    + rewrite Hi, <- app_assoc. reflexivity.
    + rewrite He, <- app_assoc. reflexivity.
    + rewrite Hw. unfold high_water.
      unfold set_entries, set_indices. cbn [block_trip_index index_seq].
      rewrite largest_id_last. cbn [BlockTripIndex.id List.length].
      unfold id, next_id. destruct autoincrement; lia.
Qed.
End Run.

Lemma index_rows_length src now gs :
  forall from, List.length (index_rows src now from gs) = List.length gs.
Proof.
  induction gs as [|g r IH]; intros from; simpl; [reflexivity|].
  now rewrite IH.
Qed.

(** The tables after a rebuild on a healthy store. *)
Lemma rebuilt_spec (autoincrement : bool) now d :
  let base := if autoincrement then Z.max 0 (index_seq d) else 0 in
  let d' := rebuilt autoincrement now d in
  trips d' = trips d
  /\ stop_times d' = stop_times d
  /\ block_trip_index d' = index_rows d now (1 + base) (group_names d)
  /\ block_trip_entry d' = entry_rows d (1 + base) (group_names d)
  /\ (autoincrement = true ->
      Z.max 0 (index_seq d')
      = base + Z.of_nat (List.length (group_names d))).
Proof.
  intros base d'. unfold d', rebuilt, Rebuild, Store.transaction,
    rebuild_steps.
  rewrite (run_bind _ _ _ _ _ _ (run_exec _ _)).
  rewrite (run_bind _ _ _ _ _ _ (run_exec _ _)).
  rewrite run_snapshot.
  cbn [Store.db Store.sent fst snd ClearBlockTripEntries
       ClearBlockTripIndices].
  set (src := set_indices (set_entries d []) [] (index_seq (set_entries d []))).
  assert (I : counter_ahead autoincrement
                (Store.db (Store.mkConn src 2))).
  { intros _. cbn. lia. }
  destruct (run_groups autoincrement src now (group_names src) _ I)
    as (c' & Run & Ht & Hs & Hi & He & I' & Hw).
  rewrite Run. cbn [Store.db fst] in *.
  assert (St : trips src = trips d) by reflexivity.
  assert (Ss : stop_times src = stop_times d) by reflexivity.
  assert (N : next_id autoincrement src = 1 + base).
  { unfold next_id, base. cbn [block_trip_index index_seq src set_indices
                               set_entries largest_id map fold_left].
    reflexivity. }
  rewrite N in Hi, He.
  rewrite (group_names_ext _ _ St Ss) in Hi, He, Hw.
  rewrite (index_rows_ext _ _ St Ss) in Hi.
  rewrite (entry_rows_ext _ _ St Ss) in He.
  change (block_trip_index src) with (@nil BlockTripIndex.t) in Hi.
  change (block_trip_entry src) with (@nil BlockTripEntry.t) in He.
  repeat split; try congruence; try assumption.
  intros A. specialize (I' A).
  unfold high_water in Hw. rewrite A in Hw.
  pose proof (largest_id_nonneg (block_trip_index (Store.db c'))).
  change (block_trip_index src) with (@nil BlockTripIndex.t) in Hw.
  change (index_seq src) with (index_seq d) in Hw.
  change (largest_id []) with 0 in Hw.
  unfold base. rewrite A. lia.
Qed.

Lemma index_rows_shift src n1 n2 k gs :
  forall from,
    index_rows src n2 (from + k) gs
    = map (restamp n2 k) (index_rows src n1 from gs).
Proof.
  induction gs as [|g r IH]; intros from; simpl; [reflexivity|].
  unfold restamp at 1. cbn [BlockTripIndex.id BlockTripIndex.index_key
    BlockTripIndex.service_ids BlockTripIndex.stop_sequence_key].
  f_equal. rewrite <- IH. f_equal. lia.
Qed.

Lemma entries_for_shift src k id ms :
  entries_for src (id + k) ms = map (relink k) (entries_for src id ms).
Proof.
  unfold entries_for.
  induction (services_of ms) as [|s r IH]; simpl; [reflexivity|].
  rewrite map_app, IH, map_map. reflexivity.
Qed.

Lemma entry_rows_shift src k gs :
  forall from,
    entry_rows src (from + k) gs = map (relink k) (entry_rows src from gs).
Proof.
  induction gs as [|g r IH]; intros from; simpl; [reflexivity|].
  rewrite map_app, entries_for_shift, <- IH. do 2 f_equal. lia.
Qed.



(** *** Failures *)

Lemma robust_ret {A} (a : A) : Store.robust (Store.ret a).
Proof. intros f c c' a' H. exact H. Qed.

Lemma robust_snapshot : Store.robust Store.snapshot.
Proof. intros f c c' a' H. exact H. Qed.

Lemma robust_exec {A} (stmt : DB -> DB * A) : Store.robust (Store.exec stmt).
Proof.
  intros f c c' a. unfold Store.exec, Store.healthy.
  destruct (f (Store.sent c)); [discriminate|]. auto.
Qed.

Lemma robust_bind {A B} (m : Store.M A) (k : A -> Store.M B) :
  Store.robust m -> (forall a, Store.robust (k a)) ->
  Store.robust (Store.bind m k).
Proof.
  intros Hm Hk f c c' b. unfold Store.bind.
  destruct (m f c) as (c1, [a|]) eqn:E; [|discriminate].
  rewrite (Hm _ _ _ _ E). apply Hk.
Qed.

Lemma robust_for_each {A} (step : A -> Store.M unit) xs :
  (forall x, Store.robust (step x)) -> Store.robust (Store.for_each step xs).
Proof.
  intros Hs. induction xs as [|x r IH]; simpl.
  - apply robust_ret.
  - apply robust_bind; auto.
Qed.

Lemma robust_steps autoincrement now :
  Store.robust (rebuild_steps autoincrement now).
Proof.
  unfold rebuild_steps.
  repeat (apply robust_bind; [|intros ?]);
    try apply robust_exec; try apply robust_snapshot.
  apply robust_for_each. intros g. unfold persist_group.
  apply robust_bind; [apply robust_exec|]. intros id.
  apply robust_for_each. intros e. apply robust_exec.
Qed.

(** Without the transaction a store error in mid-rebuild leaves the
    entries cleared and the index half-built. *)
Example unguarded_failure_loses_index :
  let run := rebuild_steps false 7 (Scenario.fails_at 3)
               (Store.mkConn Scenario.block_b1_indexed 0) in
  snd run = None
  /\ block_trip_entry (Store.db (fst run)) = []
  /\ List.length (block_trip_entry Scenario.block_b1_indexed) = 2%nat.
Proof. repeat split. Qed.



(** *** Numbering *)

Lemma filter_uniform {A} (p : A -> bool) (v : bool) l :
  (forall x, In x l -> p x = v) -> filter p l = if v then l else [].
Proof.
  induction l as [|a r IH]; simpl; intros H; [now destruct v|].
  rewrite (H a (or_introl eq_refl)), IH by (intros; apply H; now right).
  now destruct v.
Qed.

Lemma filter_filter {A} (p q : A -> bool) l :
  filter p (filter q l) = filter (fun x => q x && p x) l.
Proof.
  induction l as [|a r IH]; simpl; [reflexivity|].
  destruct (q a); simpl; [destruct (p a); now rewrite IH | exact IH].
Qed.

Lemma numbered_snd {A} (l : list A) :
  forall from, map snd (numbered from l) = l.
Proof. induction l as [|a r IH]; intros from; simpl; now rewrite ?IH. Qed.

Lemma numbered_fst {A} (l : list A) :
  forall from,
    map fst (numbered from l)
    = map (fun n => from + Z.of_nat n) (seq 0 (List.length l)).
Proof.
  induction l as [|a r IH]; intros from; [reflexivity|].
  cbn [numbered map List.length seq fst]. f_equal; [lia|].
  rewrite IH, <- seq_shift, map_map. apply map_ext. intros n. lia.
Qed.

Lemma numbered_in {A} (l : list A) :
  forall from i x, In (i, x) (numbered from l) -> from <= i /\ In x l.
Proof.
  induction l as [|a r IH]; intros from i x; simpl; [tauto|].
  intros [[= <- <-] | H]; [split; [lia | now left]|].
  apply IH in H as (? & ?). split; [lia | now right].
Qed.

Lemma numbered_ordered {A} (R : A -> A -> Prop) (l : list A) :
  StronglySorted R l ->
  forall from i x j y,
    In (i, x) (numbered from l) -> In (j, y) (numbered from l) ->
    i < j -> R x y.
Proof.
  induction 1 as [|a r S IH Hall]; intros from i x j y; simpl; [tauto|].
  rewrite Forall_forall in Hall.
  intros [[= <- <-] | Hi] [[= <- <-] | Hj] L.
  - lia.
  - apply Hall. now apply numbered_in in Hj.
  - apply numbered_in in Hi. lia.
  - exact (IH _ _ _ _ _ Hi Hj L).
Qed.

Lemma numbered_distinct {A} (l : list A) :
  NoDup l ->
  forall from i x j y,
    In (i, x) (numbered from l) -> In (j, y) (numbered from l) ->
    i < j -> x <> y.
Proof.
  induction 1 as [|a r Hn N IH]; intros from i x j y; simpl; [tauto|].
  intros [[= <- <-] | Hi] [[= <- <-] | Hj] L.
  - lia.
  - apply numbered_in in Hj. intros ->. tauto.
  - apply numbered_in in Hi. lia.
  - exact (IH _ _ _ _ _ Hi Hj L).
Qed.

Lemma entry_rows_app src l1 l2 :
  forall from,
    entry_rows src from (l1 ++ l2)
    = entry_rows src from l1
      ++ entry_rows src (from + Z.of_nat (List.length l1)) l2.
Proof.
  induction l1 as [|g r IH]; intros from.
  - simpl. now rewrite Z.add_0_r.
  - cbn [app entry_rows List.length]. rewrite IH, <- app_assoc.
    do 3 f_equal. lia.
Qed.

(** *** Groups *)

Lemma in_group_true d g tr :
  in_group d g tr = true <-> name_of d tr = Some g.
Proof.
  unfold in_group. destruct (name_of d tr) as [g'|].
  - destruct (group_name_dec g' g); split; congruence.
  - split; discriminate.
Qed.

Lemma name_of_block d g tr :
  name_of d tr = Some g -> block_of tr = Some (fst g).
Proof.
  unfold name_of. destruct (block_of tr); [|discriminate].
  now intros [= <-].
Qed.

Lemma name_of_from_block d b tr :
  block_of tr = Some b ->
  name_of d tr = Some (b, stop_sequence_key d (Trip.id tr)).
Proof. unfold name_of. now intros ->. Qed.

Lemma block_of_block_id tr b :
  block_of tr = Some b -> Trip.block_id tr = Some b.
Proof.
  unfold block_of. destruct (Trip.block_id tr) as [x|]; [|discriminate].
  destruct (String.eqb x ""); congruence.
Qed.

Lemma in_members d g tr :
  In tr (members d g) <-> In tr (trips d) /\ name_of d tr = Some g.
Proof. unfold members. now rewrite filter_In, in_group_true. Qed.

Lemma in_group_names d g tr :
  In tr (trips d) -> name_of d tr = Some g -> In g (group_names d).
Proof.
  intros Htr E. unfold group_names. apply nodup_In, in_flat_map.
  exists tr. split; [assumption|]. rewrite E. now left.
Qed.

(** *** The entry rows of one (block, service) pair *)

Section Pair.
Variable d : DB.
Variables block service : string.

Let keep (e : BlockTripEntry.t) : bool :=
  Sql.eq_null (BlockTripEntry.block_id e) (Some block)
  && String.eqb (BlockTripEntry.service_id e) service.

Let runs (s : string) (tr : Trip.t) : bool :=
  String.eqb (Trip.service_id tr) s.

Lemma in_pair_trips tr :
  In tr (pair_trips d block service) <->
  In tr (trips d) /\ block_of tr = Some block
  /\ Trip.service_id tr = service.
Proof.
  unfold pair_trips.
  rewrite filter_In, andb_true_iff, SqlFacts.eq_null_some, String.eqb_eq.
  reflexivity.
Qed.

Lemma keep_entry g id i tr s :
  name_of d tr = Some g -> Trip.service_id tr = s ->
  keep (entry_of id (i, tr))
  = String.eqb (fst g) block && String.eqb s service.
Proof.
  intros N S. unfold keep, entry_of. cbn [snd fst
    BlockTripEntry.block_id BlockTripEntry.service_id].
  rewrite (block_of_block_id _ _ (name_of_block _ _ _ N)), S.
  reflexivity.
Qed.

Lemma slot_member ms s i tr :
  In (i, tr) (numbered 0 (slots d ms s)) ->
  In tr ms /\ Trip.service_id tr = s.
Proof.
  intros H. apply numbered_in in H as (_ & H).
  unfold slots, by_first_departure in H.
  apply SqlFacts.order_by_in, filter_In in H as (H & E).
  now apply String.eqb_eq in E.
Qed.

(** Of the entries of a group, the pair keeps those of its service,
    and only when the group belongs to its block. *)
Lemma keep_services g id svcs :
  NoDup svcs ->
  filter keep
    (flat_map (fun s => map (entry_of id)
                            (numbered 0 (slots d (members d g) s)))
              svcs)
  = if String.eqb (fst g) block && Sql.in_slice service svcs
    then map (entry_of id) (numbered 0 (slots d (members d g) service))
    else [].
Proof.
  induction 1 as [|s r Hn N IH].
  - simpl. now rewrite andb_false_r.
  - cbn [flat_map]. rewrite filter_app, IH.
    rewrite (filter_uniform keep
               (String.eqb (fst g) block && String.eqb s service)).
    2:{ intros e He. apply in_map_iff in He as ((i, tr) & <- & Hs).
        apply slot_member in Hs as (Hm & E).
        apply in_members in Hm as (_ & Hg).
        now apply keep_entry. }
    unfold Sql.in_slice. cbn [existsb]. fold (Sql.in_slice service r).
    rewrite (String.eqb_sym service s).
    destruct (String.eqb (fst g) block); [|reflexivity].
    destruct (String.eqb_spec s service) as [-> | _]; cbn [andb orb].
    + destruct (Sql.in_slice service r) eqn:I.
      * apply SqlFacts.in_slice_true in I. contradiction.
      * apply app_nil_r.
    + reflexivity.
Qed.

Lemma pair_in_group g :
  filter (in_group d g) (pair_trips d block service)
  = if String.eqb (fst g) block
    then filter (runs service) (members d g) else [].
Proof.
  unfold pair_trips, members. rewrite !filter_filter.
  destruct (String.eqb_spec (fst g) block) as [E | E].
  - apply filter_ext. intros tr.
    destruct (in_group d g tr) eqn:G; [|now rewrite andb_false_r].
    apply in_group_true, name_of_block in G. rewrite G, E.
    cbn [Sql.eq_null]. rewrite String.eqb_refl. cbn [andb].
    unfold runs. now rewrite andb_true_r.
  - rewrite (filter_uniform _ false); [reflexivity|].
    intros tr _. destruct (in_group d g tr) eqn:G;
      [|now rewrite andb_false_r].
    apply in_group_true, name_of_block in G. rewrite G.
    cbn [Sql.eq_null].
    destruct (String.eqb_spec (fst g) block); [contradiction|reflexivity].
Qed.

Lemma group_contribution g id :
  filter keep (entries_for d id (members d g))
  = map (entry_of id)
        (numbered 0
           (by_first_departure d
              (filter (in_group d g) (pair_trips d block service)))).
Proof.
  unfold entries_for.
  rewrite keep_services by apply NoDup_nodup.
  rewrite pair_in_group.
  destruct (String.eqb (fst g) block); [|reflexivity]. cbn [andb].
  destruct (Sql.in_slice service (services_of (members d g))) eqn:I;
    [reflexivity|].
  rewrite (filter_uniform _ false); [reflexivity|].
  intros tr Htr. unfold runs.
  destruct (String.eqb_spec (Trip.service_id tr) service) as [E|]; auto.
  rewrite <- I. symmetry. apply SqlFacts.in_slice_true.
  unfold services_of. apply SqlFacts.in_distinct.
  rewrite <- E. now apply in_map.
Qed.

Lemma no_contribution gs :
  (forall g, In g gs ->
             filter (in_group d g) (pair_trips d block service) = []) ->
  forall from, filter keep (entry_rows d from gs) = [].
Proof.
  induction gs as [|g r IH]; intros H from; [reflexivity|].
  cbn [entry_rows]. rewrite filter_app, group_contribution.
  rewrite (H g (or_introl eq_refl)), IH by (intros; apply H; now right).
  reflexivity.
Qed.

Hypothesis pattern : one_pattern d block service.

Lemma pair_name tr tr' :
  In tr (pair_trips d block service) ->
  In tr' (pair_trips d block service) ->
  name_of d tr' = name_of d tr.
Proof.
  intros H H'. pose proof (pattern _ _ H H') as K.
  apply in_pair_trips in H as (_ & B & _).
  apply in_pair_trips in H' as (_ & B' & _).
  rewrite (name_of_from_block d _ _ B), (name_of_from_block d _ _ B').
  now rewrite K.
Qed.

(** The pair's entries are the pair's trips in departure order,
    numbered from 0, all under one index id. *)
Lemma pair_entries_of_rows gs :
  NoDup gs ->
  (forall tr g, In tr (pair_trips d block service) ->
                name_of d tr = Some g -> In g gs) ->
  forall from,
  exists id,
    filter keep (entry_rows d from gs)
    = map (entry_of id)
          (numbered 0
             (by_first_departure d (pair_trips d block service))).
Proof.
  intros N Hall from.
  destruct (pair_trips d block service) as [|tr0 rest] eqn:ET.
  - exists 0. rewrite no_contribution; [reflexivity|].
    intros g _. now rewrite ET.
  - assert (H0 : In tr0 (pair_trips d block service))
      by (rewrite ET; now left).
    pose proof H0 as B. apply in_pair_trips in B as (_ & B & _).
    pose proof (name_of_from_block d _ _ B) as G0.
    set (g0 := (block, stop_sequence_key d (Trip.id tr0))) in *.
    assert (Same : forall tr, In tr (pair_trips d block service) ->
                              name_of d tr = Some g0).
    { intros tr Htr. now rewrite (pair_name tr0 tr H0 Htr). }
    assert (Other : forall g, g <> g0 ->
              filter (in_group d g) (pair_trips d block service) = []).
    { intros g Hg. rewrite (filter_uniform _ false); [reflexivity|].
      intros tr Htr. destruct (in_group d g tr) eqn:E; [|reflexivity].
      apply in_group_true in E. rewrite (Same _ Htr) in E.
      congruence. }
    destruct (in_split g0 gs (Hall _ _ (or_introl eq_refl) G0))
      as (l1 & l2 & ->).
    apply NoDup_remove_2 in N.
    exists (from + Z.of_nat (List.length l1)).
    rewrite entry_rows_app, filter_app. cbn [entry_rows].
    rewrite filter_app, group_contribution.
    rewrite !no_contribution.
    + rewrite app_nil_r. cbn [app].
      rewrite (filter_uniform _ true), ET; [reflexivity|].
      intros tr Htr. now apply in_group_true, Same.
    + intros g Hg. apply Other. intros ->. apply N, in_or_app. now right.
    + intros g Hg. apply Other. intros ->. apply N, in_or_app. now left.
Qed.
End Pair.

Lemma numbered_length {A} (l : list A) from :
  List.length (numbered from l) = List.length l.
Proof. now rewrite <- (length_map snd), numbered_snd. Qed.

Lemma pair_entries_rebuilt (autoincrement : bool) now d block service :
  one_pattern d block service ->
  exists id,
    pair_entries (rebuilt autoincrement now d) block service
    = map (entry_of id)
          (numbered 0 (by_first_departure d (pair_trips d block service))).
Proof.
  intros Pat. unfold pair_entries.
  destruct (rebuilt_spec autoincrement now d) as (_ & _ & _ & -> & _).
  apply (pair_entries_of_rows d block service Pat).
  - apply NoDup_nodup.
  - intros tr g Htr E. apply in_pair_trips in Htr as (Htr & _).
    eapply in_group_names; eauto.
Qed.



Lemma block_b1_one_pattern : one_pattern Scenario.block_b1 "B1" "s1".
Proof.
  intros tr tr' H H'. vm_compute in H, H'.
  destruct H as [<- | [<- | []]], H' as [<- | [<- | []]]; reflexivity.
Defined.

Lemma block_b1_keyed : Window.trips_keyed Scenario.block_b1.
Proof.
  unfold Window.trips_keyed. cbn.
  repeat constructor; cbn; intuition discriminate.
Defined.

Lemma block_b1_spaced_apart : spaced_apart Scenario.block_b1 "B1" "s1".
Proof.
  split.
  - intros tr H. vm_compute in H. destruct H as [<- | [<- | []]].
    + exists 28800, 29400. repeat split. lia.
    + exists 29500, 30300. repeat split. lia.
  - intros tr tr' la la' fd fd' H H' Ne F L F' L'.
    vm_compute in H, H'.
    destruct H as [<- | [<- | []]], H' as [<- | [<- | []]];
      try (exfalso; apply Ne; reflexivity);
      vm_compute in F, L, F', L';
      injection F as <-; injection L as <-;
      injection F' as <-; injection L' as <-; lia.
Defined.


End BuilderSpec.

(* ================================================================= *)
(** * Further properties of the queries *)

(** ** The active service set *)

Module ResolverMore.
Import Resolver.

Lemma in_base_services db date s :
  In s (base_services db date) <->
  exists c, In c (calendar db) /\ Calendar.id c = s
            /\ String.leb (Calendar.start_date c) date = true
            /\ String.leb date (Calendar.end_date c) = true
            /\ weekday_flag_set (formatted_date date) c = true.
Proof.
  unfold base_services. rewrite in_map_iff. split.
  - intros (c & E & H). apply filter_In in H as (H & W).
    rewrite !andb_true_iff in W. exists c. tauto.
  - intros (c & H & E & A & B & W). exists c. split; [assumption|].
    apply filter_In. rewrite !andb_true_iff. tauto.
Qed.

(** X1. A service is active on a date exactly when a calendar row of the
    service covers the date (as text), has the flag of the date's
    weekday set and the service is not removed on that date, or when the
    service is added on that date; the result lists no service twice. *)
Theorem active_services_characterised db date :
  (forall s,
     In s (GetActiveServiceIDsForDate db date) <->
     ((exists c, In c (calendar db) /\ Calendar.id c = s
                 /\ String.leb (Calendar.start_date c) date = true
                 /\ String.leb date (Calendar.end_date c) = true
                 /\ weekday_flag_set (formatted_date date) c = true)
      /\ ~ In (CalendarDate.mk s date CalendarDate.removed)
              (calendar_dates db))
     \/ In (CalendarDate.mk s date CalendarDate.added) (calendar_dates db))
  /\ NoDup (GetActiveServiceIDsForDate db date).
Proof.
  split.
  - intros s. rewrite ResolverSpec.active_iff, in_base_services.
    unfold removed_services, added_services.
    rewrite !ResolverSpec.in_exceptions. reflexivity.
  - unfold GetActiveServiceIDsForDate, Sql.union, Sql.distinct.
    apply NoDup_nodup.
Qed.

Lemma null_weekday_never_set c : weekday_flag_set None c = false.
Proof. reflexivity. Qed.

(** X2. When the date text is not a calendar date SQLite can read, no
    calendar row contributes: the active services are exactly those
    added by an exception row carrying the same text. *)
Theorem unreadable_date_has_only_additions db date :
  formatted_date date = None ->
  forall s,
    In s (GetActiveServiceIDsForDate db date) <->
    In (CalendarDate.mk s date CalendarDate.added) (calendar_dates db).
Proof.
  intros F s. rewrite ResolverSpec.active_iff. unfold added_services.
  rewrite ResolverSpec.in_exceptions. split; [|tauto].
  intros [(B & _) | A]; [|exact A].
  apply in_base_services in B as (c & _ & _ & _ & _ & W).
  rewrite F, null_weekday_never_set in W. discriminate W.
Qed.

Lemma unreadable_date_has_only_additions_witness :
  formatted_date "2025-01-06" = None
  /\ ~ In "s1" (GetActiveServiceIDsForDate Sample.dashed "2025-01-06")
  /\ In "s2" (GetActiveServiceIDsForDate Sample.dashed "2025-01-06").
Proof.
  assert (F : formatted_date "2025-01-06" = None) by reflexivity.
  split; [exact F|]. split.
  - intros H.
    apply (unreadable_date_has_only_additions Sample.dashed _ F) in H.
    simpl in H. destruct H as [H | []]. discriminate H.
  - apply (unreadable_date_has_only_additions Sample.dashed _ F).
    simpl. auto.
Defined.

End ResolverMore.

(* ================================================================= *)
(** ** The block query, as the statement reads *)

Module MatcherMore.
Import Matcher.

(** A trip's stop events with the lowest and the highest stop
    sequence. *)
Lemma first_row_is_lowest db tr f :
  In f (st_first_rows db tr) <->
  In f (stop_times db) /\ StopTime.trip_id f = Trip.id tr
  /\ forall s, In s (stop_times db) -> StopTime.trip_id s = Trip.id tr ->
               StopTime.stop_sequence f <= StopTime.stop_sequence s.
Proof.
  rewrite MatcherSpec.in_st_first_rows, MatcherSpec.in_stop_times_of.
  unfold min_stop_sequence. rewrite SqlFacts.agg_min_spec. split.
  - intros ((Hf & E) & _ & Low). repeat split; auto.
    intros s Hs Es. apply Low, in_map. now apply MatcherSpec.in_stop_times_of.
  - intros (Hf & E & Low). repeat split; auto.
    + apply in_map. now apply MatcherSpec.in_stop_times_of.
    + intros y Hy. apply in_map_iff in Hy as (s & <- & Hs).
      apply MatcherSpec.in_stop_times_of in Hs as (Hs & Es). auto.
Qed.

Lemma last_row_is_highest db tr l :
  In l (st_last_rows db tr) <->
  In l (stop_times db) /\ StopTime.trip_id l = Trip.id tr
  /\ forall s, In s (stop_times db) -> StopTime.trip_id s = Trip.id tr ->
               StopTime.stop_sequence s <= StopTime.stop_sequence l.
Proof.
  rewrite MatcherSpec.in_st_last_rows, MatcherSpec.in_stop_times_of.
  unfold max_stop_sequence. rewrite SqlFacts.agg_max_spec. split.
  - intros ((Hf & E) & _ & Up). repeat split; auto.
    intros s Hs Es. apply Up, in_map. now apply MatcherSpec.in_stop_times_of.
  - intros (Hf & E & Up). repeat split; auto.
    + apply in_map. now apply MatcherSpec.in_stop_times_of.
    + intros y Hy. apply in_map_iff in Hy as (s & <- & Hs).
      apply MatcherSpec.in_stop_times_of in Hs as (Hs & Es). auto.
Qed.

Lemma in_block_hits db block ids now r :
  In r (block_hits db block ids now) <->
  In (t r) (trips db)
  /\ In (st_first r) (st_first_rows db (t r))
  /\ In (st_last r) (st_last_rows db (t r))
  /\ Sql.eq_null (Trip.block_id (t r)) block = true
  /\ In (Trip.service_id (t r)) ids
  /\ StopTime.departure_time (st_first r) <= now
     <= StopTime.arrival_time (st_last r).
Proof.
  unfold block_hits, in_block_at, first_departure_time, last_arrival_time.
  rewrite filter_In, in_flat_map, !andb_true_iff, SqlFacts.in_slice_true,
    Z.leb_le, Z.geb_leb, Z.leb_le.
  split.
  - intros ((tr & Htr & Hr) & W).
    apply MatcherSpec.in_spans_of in Hr as (<- & Hf & Hl). tauto.
  - intros (Htr & Hf & Hl & W). split; [|tauto].
    exists (t r). split; [assumption|]. now apply MatcherSpec.in_spans_of.
Qed.

Lemma hit_under_way db block ids now r :
  In r (block_hits db (Some block) ids now) ->
  Lookup.under_way db block ids now (t r) (first_departure_time r).
Proof.
  intros H. apply in_block_hits in H as (Htr & Hf & Hl & B & S & W).
  apply SqlFacts.eq_null_some in B.
  apply first_row_is_lowest in Hf as (Hf & Ef & Low).
  apply last_row_is_highest in Hl as (Hl & El & Up).
  repeat split; auto.
  exists (st_first r), (st_last r). repeat split; auto; tauto.
Qed.

Lemma under_way_hit db block ids now tr departs :
  Lookup.under_way db block ids now tr departs ->
  exists r, In r (block_hits db (Some block) ids now)
            /\ t r = tr /\ first_departure_time r = departs.
Proof.
  intros (Htr & B & S & f & l & Hf & Hl & Ef & El & Ends & D & W).
  exists (mkSpan tr f l). repeat split; auto.
  apply in_block_hits. cbn [t st_first st_last].
  split; [assumption|]. split; [|split; [|split; [|split]]].
  - apply first_row_is_lowest. repeat split; auto.
    intros s Hs Es. now apply Ends.
  - apply last_row_is_highest. repeat split; auto.
    intros s Hs Es. now apply Ends.
  - now apply SqlFacts.eq_null_some.
  - assumption.
  - unfold first_departure_time in D. cbn [st_first] in D. rewrite D. tauto.
Qed.

Lemma answer_is_earliest db block ids now id :
  GetActiveTripInBlockAtTime db (Some block) ids now = Some id ->
  exists tr departs,
    Trip.id tr = id
    /\ Lookup.under_way db block ids now tr departs
    /\ forall tr' departs',
         Lookup.under_way db block ids now tr' departs' ->
         departs <= departs'.
Proof.
  unfold GetActiveTripInBlockAtTime. rewrite SqlFacts.one_limit_1.
  destruct (Sql.one _) as [r|] eqn:E; [|discriminate].
  cbn [option_map]. intros [= <-].
  apply (SqlFacts.order_by_first _ _ SqlFacts.zleb_total
           SqlFacts.zleb_trans) in E as (Hr & Hmin).
  exists (t r), (first_departure_time r).
  split; [reflexivity|]. split; [now apply hit_under_way|].
  intros tr' departs' U.
  destruct (under_way_hit _ _ _ _ _ _ U) as (r' & Hr' & _ & <-).
  apply Z.leb_le. now apply Hmin.
Qed.

Lemma no_answer_none_under_way db block ids now :
  GetActiveTripInBlockAtTime db (Some block) ids now = None ->
  forall tr departs, ~ Lookup.under_way db block ids now tr departs.
Proof.
  unfold GetActiveTripInBlockAtTime. rewrite SqlFacts.one_limit_1.
  destruct (Sql.one _) as [r|] eqn:E; [discriminate|]. intros _.
  apply SqlFacts.order_by_none in E. intros tr departs U.
  destruct (under_way_hit _ _ _ _ _ _ U) as (r' & Hr' & _).
  rewrite E in Hr'. contradiction.
Qed.

(** X3. Whatever the stop events look like, [GetActiveTripInBlockAtTime]
    answers a trip of the block under a listed service for which the
    query time lies between the departure from the stop with the lowest
    stop sequence and the arrival at the stop with the highest; no such
    trip leaves its first stop earlier than the one answered, and the
    answer is empty exactly when there is no such trip. *)
Theorem block_query_reads_end_stops db block ids now :
  match GetActiveTripInBlockAtTime db (Some block) ids now with
  | Some id =>
      exists tr departs,
        Trip.id tr = id
        /\ Lookup.under_way db block ids now tr departs
        /\ forall tr' departs',
             Lookup.under_way db block ids now tr' departs' ->
             departs <= departs'
  | None => forall tr departs, ~ Lookup.under_way db block ids now tr departs
  end.
Proof.
  destruct (GetActiveTripInBlockAtTime db (Some block) ids now) as [id|] eqn:E.
  - now apply answer_is_earliest.
  - now apply no_answer_none_under_way.
Qed.

(** X4. A NULL block parameter or an empty service list gives no row,
    whatever is stored. *)
Theorem block_query_needs_block_and_service db block ids now :
  GetActiveTripInBlockAtTime db None ids now = None
  /\ GetActiveTripInBlockAtTime db block [] now = None.
Proof.
  assert (E : forall b l, (forall r, ~ In r (block_hits db b l now)) ->
                          GetActiveTripInBlockAtTime db b l now = None).
  { intros b l H. unfold GetActiveTripInBlockAtTime.
    rewrite SqlFacts.one_limit_1.
    destruct (block_hits db b l now) as [|r rest]; [reflexivity|].
    exfalso. apply (H r). now left. }
  split; apply E; intros r H; apply in_block_hits in H
    as (_ & _ & _ & B & S & _).
  - destruct (Trip.block_id (t r)); discriminate B.
  - exact S.
Qed.

(** X5. The trip answered by [GetActiveTripInBlockAtTime] is one of the
    trips [GetTripsInBlock] lists for the same block and services. *)
Theorem active_trip_is_listed db block ids now id :
  GetActiveTripInBlockAtTime db block ids now = Some id ->
  In id (Lookup.GetTripsInBlock db block ids).
Proof.
  unfold GetActiveTripInBlockAtTime. rewrite SqlFacts.one_limit_1.
  destruct (Sql.one _) as [r|] eqn:E; [|discriminate].
  intros [= <-].
  apply (SqlFacts.order_by_first _ _ SqlFacts.zleb_total
           SqlFacts.zleb_trans) in E as (Hr & _).
  apply in_block_hits in Hr as (Htr & _ & _ & B & S & _).
  unfold Lookup.GetTripsInBlock. apply in_map, filter_In.
  split; [assumption|].
  rewrite andb_true_iff, SqlFacts.in_slice_true. tauto.
Qed.

Lemma active_trip_is_listed_witness :
  GetActiveTripInBlockAtTime Scenario.block_b1 (Some "B1") ["s1"] 29000
  = Some "T1"
  /\ In "T1" (Lookup.GetTripsInBlock Scenario.block_b1 (Some "B1") ["s1"]).
Proof.
  assert (E : GetActiveTripInBlockAtTime Scenario.block_b1 (Some "B1")
                ["s1"] 29000 = Some "T1") by reflexivity.
  split; [exact E|].
  exact (active_trip_is_listed _ _ _ _ _ E).
Defined.

(** X6. Listing more services never loses the answer: if a trip is
    answered for a service list, a trip is answered for every longer
    list, and it does not leave its first stop later. *)
Theorem more_services_keep_the_answer db block ids ids' now id :
  incl ids ids' ->
  GetActiveTripInBlockAtTime db (Some block) ids now = Some id ->
  exists id' tr tr' departs departs',
    GetActiveTripInBlockAtTime db (Some block) ids' now = Some id'
    /\ Trip.id tr = id /\ Trip.id tr' = id'
    /\ Lookup.under_way db block ids now tr departs
    /\ Lookup.under_way db block ids' now tr' departs'
    /\ departs' <= departs.
Proof.
  intros I E.
  destruct (answer_is_earliest _ _ _ _ _ E) as (tr & departs & Eid & U & _).
  assert (U' : Lookup.under_way db block ids' now tr departs).
  { destruct U as (A & B & C & D). repeat split; auto. }
  destruct (GetActiveTripInBlockAtTime db (Some block) ids' now) as [id'|]
    eqn:E'.
  - destruct (answer_is_earliest _ _ _ _ _ E')
      as (tr' & departs' & Eid' & V & Min).
    exists id', tr, tr', departs, departs'.
    split; [reflexivity|]. split; [assumption|]. split; [assumption|].
    split; [exact U|]. split; [exact V|]. exact (Min _ _ U').
  - exfalso. exact (no_answer_none_under_way _ _ _ _ E' _ _ U').
Qed.

Lemma more_services_keep_the_answer_witness :
  exists id' tr tr' departs departs',
    GetActiveTripInBlockAtTime Scenario.block_b1 (Some "B1") ["s1"; "s2"]
                               29000 = Some id'
    /\ Trip.id tr = "T1" /\ Trip.id tr' = id'
    /\ Lookup.under_way Scenario.block_b1 "B1" ["s1"] 29000 tr departs
    /\ Lookup.under_way Scenario.block_b1 "B1" ["s1"; "s2"] 29000 tr' departs'
    /\ departs' <= departs.
Proof.
  assert (I : incl ["s1"] ["s1"; "s2"]).
  { intros x [<- | []]. now left. }
  assert (E : GetActiveTripInBlockAtTime Scenario.block_b1 (Some "B1")
                ["s1"] 29000 = Some "T1") by reflexivity.
  exact (more_services_keep_the_answer _ _ _ _ _ _ I E).
Defined.

End MatcherMore.

(* ================================================================= *)
(** ** Trips of a block in departure order *)

Module BlockTripsSpec.
Import Lookup.

Lemma in_block_stop_rows db block ids tr s :
  In (tr, s) (block_stop_rows db block ids) <->
  In tr (trips db) /\ In s (stop_times db)
  /\ StopTime.trip_id s = Trip.id tr
  /\ Sql.eq_null (Trip.block_id tr) block = true
  /\ In (Trip.service_id tr) ids.
Proof.
  unfold block_stop_rows.
  rewrite filter_In, in_flat_map, andb_true_iff, SqlFacts.in_slice_true.
  cbn [fst]. split.
  - intros ((tr' & Htr & H) & W). apply in_map_iff in H as (s' & [= <- <-] & Hs).
    apply filter_In in Hs as (Hs & E). apply String.eqb_eq in E. tauto.
  - intros (Htr & Hs & E & W). split; [|tauto].
    exists tr. split; [assumption|]. apply in_map, filter_In.
    split; [assumption|]. now apply String.eqb_eq.
Qed.

Lemma in_group_rows rows k row :
  In row (group_rows rows k) <-> In row rows /\ key_of row = k.
Proof.
  unfold group_rows. rewrite filter_In.
  destruct (group_key_dec (key_of row) k); split; intros (? & ?);
    split; auto; discriminate.
Qed.

(** The stop events gathered in the group of a trip are the stop events
    of that trip. *)
Lemma group_stop_events db block ids tr s0 s :
  In (tr, s0) (block_stop_rows db block ids) ->
  In s (map snd (group_rows (block_stop_rows db block ids) (key_of (tr, s0))))
  <-> In s (Matcher.stop_times_of db (Trip.id tr)).
Proof.
  intros H0. apply in_block_stop_rows in H0 as (Htr & _ & _ & B & S).
  rewrite in_map_iff, MatcherSpec.in_stop_times_of. split.
  - intros ((tr', s') & <- & H). apply in_group_rows in H as (H & K).
    apply in_block_stop_rows in H as (_ & Hs & E & _).
    cbn [snd]. split; [assumption|].
    unfold key_of in K. cbn [fst] in K. congruence.
  - intros (Hs & E). exists (tr, s). split; [reflexivity|].
    apply in_group_rows. split; [|reflexivity].
    apply in_block_stop_rows. tauto.
Qed.

Lemma same_members_same_min (xs ys : list Z) :
  (forall x, In x xs <-> In x ys) -> Sql.agg_min xs = Sql.agg_min ys.
Proof.
  intros H. destruct (Sql.agg_min xs) as [m|] eqn:E.
  - symmetry. apply SqlFacts.agg_min_spec.
    apply SqlFacts.agg_min_spec in E as (Hm & Low). split.
    + now apply H.
    + intros y Hy. apply Low. now apply H.
  - apply SqlFacts.agg_min_none in E. subst. symmetry.
    apply SqlFacts.agg_min_none. destruct ys as [|y r]; [reflexivity|].
    exfalso. apply (H y). now left.
Qed.

Lemma same_members_same_max (xs ys : list Z) :
  (forall x, In x xs <-> In x ys) -> Sql.agg_max xs = Sql.agg_max ys.
Proof.
  intros H. destruct (Sql.agg_max xs) as [m|] eqn:E.
  - symmetry. apply SqlFacts.agg_max_spec.
    apply SqlFacts.agg_max_spec in E as (Hm & Up). split.
    + now apply H.
    + intros y Hy. apply Up. now apply H.
  - apply SqlFacts.agg_max_none in E. subst. symmetry.
    apply SqlFacts.agg_max_none. destruct ys as [|y r]; [reflexivity|].
    exfalso. apply (H y). now left.
Qed.

Lemma column_members {A} (f : A -> Z) (xs ys : list A) :
  (forall x, In x xs <-> In x ys) ->
  forall v, In v (map f xs) <-> In v (map f ys).
Proof.
  intros H v. rewrite !in_map_iff.
  split; intros (x & E & Hx); exists x; split; auto; now apply H.
Qed.

Lemma in_ordered db block ids row :
  In row (GetTripsByBlockIDOrdered db block ids) <->
  exists tr s,
    In (tr, s) (block_stop_rows db block ids)
    /\ row = aggregate (block_stop_rows db block ids) (key_of (tr, s)).
Proof.
  unfold GetTripsByBlockIDOrdered.
  rewrite SqlFacts.order_by_in, in_map_iff. split.
  - intros (k & <- & Hk). apply nodup_In, in_map_iff in Hk as ((tr, s) & <- & H).
    now exists tr, s.
  - intros (tr & s & H & ->). exists (key_of (tr, s)). split; [reflexivity|].
    apply nodup_In, in_map. exact H.
Qed.

(** X7. [GetTripsByBlockIDOrdered] lists exactly the trips of the block
    under a listed service that have at least one stop event; each row
    carries the trip's earliest departure and latest arrival, and the
    rows come by earliest departure ascending. *)
Theorem block_trips_ordered db block ids :
  let rows := GetTripsByBlockIDOrdered db block ids in
  (forall id,
     In id (map bt_id rows) <->
     exists tr, In tr (trips db) /\ Trip.id tr = id
                /\ Sql.eq_null (Trip.block_id tr) block = true
                /\ In (Trip.service_id tr) ids
                /\ Matcher.stop_times_of db id <> [])
  /\ (forall row,
        In row rows ->
        first_departure_time row = Matcher.first_departure db (bt_id row)
        /\ last_arrival_time row = Matcher.last_arrival db (bt_id row)
        /\ first_departure_time row <> None
        /\ last_arrival_time row <> None)
  /\ StronglySorted
       (fun a b => Sql.null_first_leb (first_departure_time a)
                                      (first_departure_time b) = true)
       rows.
Proof.
  intros rows. split; [|split].
  - intros id. unfold rows. rewrite in_map_iff. split.
    + intros (row & <- & H). apply in_ordered in H as (tr & s & H & ->).
      pose proof H as H'.
      apply in_block_stop_rows in H' as (Htr & Hs & E & B & S).
      exists tr. cbn. repeat split; auto.
      intros N. assert (In s (Matcher.stop_times_of db (Trip.id tr)))
        by now apply MatcherSpec.in_stop_times_of.
      rewrite N in *. contradiction.
    + intros (tr & Htr & <- & B & S & N).
      destruct (Matcher.stop_times_of db (Trip.id tr)) as [|s r] eqn:E;
        [contradiction|].
      assert (Hs : In s (Matcher.stop_times_of db (Trip.id tr)))
        by (rewrite E; now left).
      apply MatcherSpec.in_stop_times_of in Hs as (Hs & Es).
      exists (aggregate (block_stop_rows db block ids) (key_of (tr, s))).
      split; [reflexivity|]. apply in_ordered. exists tr, s.
      split; [|reflexivity]. apply in_block_stop_rows. tauto.
  - intros row H. apply in_ordered in H as (tr & s & H & ->).
    unfold aggregate. cbn [first_departure_time last_arrival_time bt_id].
    unfold Matcher.first_departure, Matcher.last_arrival.
    rewrite <- !(map_map snd).
    assert (Eq : forall x,
               In x (map snd (group_rows (block_stop_rows db block ids)
                                         (key_of (tr, s))))
               <-> In x (Matcher.stop_times_of db (Trip.id tr)))
      by (intros x; now apply group_stop_events).
    cbn [key_of fst snd] in *.
    rewrite (same_members_same_min _ _
               (column_members StopTime.departure_time _ _ Eq)).
    rewrite (same_members_same_max _ _
               (column_members StopTime.arrival_time _ _ Eq)).
    split; [reflexivity|]. split; [reflexivity|].
    apply in_block_stop_rows in H as (_ & Hs & E & _).
    assert (In s (Matcher.stop_times_of db (Trip.id tr)))
      by now apply MatcherSpec.in_stop_times_of.
    split; intros N.
    + apply SqlFacts.agg_min_none, map_eq_nil in N. rewrite N in *.
      contradiction.
    + apply SqlFacts.agg_max_none, map_eq_nil in N. rewrite N in *.
      contradiction.
  - unfold rows, GetTripsByBlockIDOrdered.
    apply (SqlFacts.order_by_sorted Sql.null_first_leb first_departure_time
             SqlFacts.null_first_total SqlFacts.null_first_trans).
Qed.

(** X8. When trip ids are a key, [GetTripsByBlockIDOrdered] has one row
    per trip. *)
Theorem block_trips_listed_once db block ids :
  Window.trips_keyed db ->
  NoDup (map bt_id (GetTripsByBlockIDOrdered db block ids)).
Proof.
  intros K. unfold GetTripsByBlockIDOrdered.
  eapply Permutation_NoDup.
  { apply Permutation_map, Permutation_sym, SqlFacts.order_by_perm. }
  rewrite map_map. cbn [aggregate bt_id].
  set (rows := block_stop_rows db block ids).
  assert (Inj : forall k k', In k (map key_of rows) -> In k' (map key_of rows) ->
                             fst (fst k) = fst (fst k') -> k = k').
  { intros k k' Hk Hk' E.
    apply in_map_iff in Hk as ((tr, s) & <- & H).
    apply in_map_iff in Hk' as ((tr', s') & <- & H').
    apply in_block_stop_rows in H as (Htr & _).
    apply in_block_stop_rows in H' as (Htr' & _).
    cbn [key_of fst snd] in *.
    assert (tr = tr'); [|now subst].
    clear - K Htr Htr' E. unfold Window.trips_keyed in K.
    induction (trips db) as [|a r IH]; [contradiction|].
    cbn [map] in K. inversion K as [|? ? Hn K']; subst.
    destruct Htr as [-> | Htr], Htr' as [-> | Htr']; auto.
    - exfalso. apply Hn. rewrite E. now apply in_map.
    - exfalso. apply Hn. rewrite <- E. now apply in_map. }
  assert (N : NoDup (nodup group_key_dec (map key_of rows)))
    by apply NoDup_nodup.
  assert (Sub : incl (nodup group_key_dec (map key_of rows))
                     (map key_of rows)).
  { intros k Hk. now apply nodup_In in Hk. }
  induction (nodup group_key_dec (map key_of rows)) as [|k r IH];
    cbn [map]; constructor.
  - inversion N as [|? ? Hn N']; subst. intros Hin.
    apply in_map_iff in Hin as (k' & E & Hk'). apply Hn.
    rewrite <- (Inj k' k); auto.
    + apply Sub. now right.
    + apply Sub. now left.
  - inversion N; subst. apply IH; auto.
    intros x Hx. apply Sub. now right.
Qed.

Lemma block_trips_listed_once_witness :
  Window.trips_keyed Scenario.block_b1
  /\ map bt_id (GetTripsByBlockIDOrdered Scenario.block_b1 (Some "B1") ["s1"])
     = ["T1"; "T2"]
  /\ NoDup (map bt_id
              (GetTripsByBlockIDOrdered Scenario.block_b1 (Some "B1") ["s1"])).
Proof.
  split; [exact BuilderSpec.block_b1_keyed|]. split; [reflexivity|].
  exact (block_trips_listed_once Scenario.block_b1 (Some "B1") ["s1"]
           BuilderSpec.block_b1_keyed).
Defined.

End BlockTripsSpec.

(* ================================================================= *)
(** ** Narrowing by index ids *)

Module IndexLookupSpec.
Import Lookup.

Lemma strictly_sorted (l : list Z) :
  StronglySorted Z.le l -> NoDup l -> StronglySorted Z.lt l.
Proof.
  induction 1 as [|a r S IH Hall]; intros N; constructor;
    inversion N as [|? ? Hn N']; subst; auto.
  rewrite Forall_forall in *. intros x Hx.
  assert (a <> x) by (intros ->; contradiction).
  specialize (Hall x Hx). lia.
Qed.

Lemma distinct_sorted_strictly (xs : list Z) :
  StronglySorted Z.lt (Sql.asc (fun id => id) (distinct_ints xs)).
Proof.
  apply strictly_sorted.
  - apply (SqlFacts.asc_sorted (fun id => id)).
  - eapply Permutation_NoDup.
    + apply Permutation_sym. unfold Sql.asc. apply SqlFacts.order_by_perm.
    + apply NoDup_nodup.
Qed.

Lemma in_distinct_sorted (xs : list Z) x :
  In x (Sql.asc (fun id => id) (distinct_ints xs)) <-> In x xs.
Proof.
  unfold Sql.asc, distinct_ints. now rewrite SqlFacts.order_by_in, nodup_In.
Qed.

Lemma in_index_rows_joined db bti bte tr :
  In (bti, bte, tr) (index_rows_joined db) <->
  In bti (block_trip_index db) /\ In bte (block_trip_entry db)
  /\ In tr (trips db)
  /\ BlockTripIndex.id bti = BlockTripEntry.block_trip_index_id bte
  /\ BlockTripEntry.trip_id bte = Trip.id tr.
Proof.
  unfold index_rows_joined. rewrite in_flat_map. split.
  - intros (i & Hi & H). apply in_flat_map in H as (e & He & H).
    apply in_map_iff in H as (x & [= <- <- <-] & Hx).
    apply filter_In in He as (He & E1). apply filter_In in Hx as (Hx & E2).
    apply Z.eqb_eq in E1. apply String.eqb_eq in E2. tauto.
  - intros (Hi & He & Htr & E1 & E2). exists bti. split; [assumption|].
    apply in_flat_map. exists bte. split.
    + apply filter_In. split; [assumption|]. now apply Z.eqb_eq.
    + apply in_map, filter_In. split; [assumption|]. now apply String.eqb_eq.
Qed.

Lemma in_index_ids db route ids id :
  In id (GetBlockTripIndexIDsForRoute db route ids) <->
  exists bti bte tr,
    In bti (block_trip_index db) /\ In bte (block_trip_entry db)
    /\ In tr (trips db)
    /\ BlockTripIndex.id bti = id
    /\ BlockTripEntry.block_trip_index_id bte = id
    /\ BlockTripEntry.trip_id bte = Trip.id tr
    /\ Trip.route_id tr = route
    /\ In (BlockTripEntry.service_id bte) ids.
Proof.
  unfold GetBlockTripIndexIDsForRoute.
  rewrite in_distinct_sorted, in_map_iff. split.
  - intros (((bti, bte), tr) & <- & H). apply filter_In in H as (H & W).
    apply in_index_rows_joined in H as (Hi & He & Htr & E1 & E2).
    cbn [fst snd] in *.
    rewrite andb_true_iff, String.eqb_eq, SqlFacts.in_slice_true in W.
    exists bti, bte, tr. repeat split; auto; tauto.
  - intros (bti & bte & tr & Hi & He & Htr & <- & E1 & E2 & R & S).
    exists (bti, bte, tr). split; [reflexivity|]. apply filter_In. split.
    + apply in_index_rows_joined. repeat split; auto.
    + cbn [fst snd].
      rewrite andb_true_iff, String.eqb_eq, SqlFacts.in_slice_true. tauto.
Qed.

(** X9. [GetBlockTripIndexIDsForRoute] returns, in strictly increasing
    order, the ids of the index rows that have an entry under a listed
    service whose trip is on the route. *)
Theorem index_ids_for_route db route ids :
  StronglySorted Z.lt (GetBlockTripIndexIDsForRoute db route ids)
  /\ forall id,
       In id (GetBlockTripIndexIDsForRoute db route ids) <->
       exists bti bte tr,
         In bti (block_trip_index db) /\ In bte (block_trip_entry db)
         /\ In tr (trips db)
         /\ BlockTripIndex.id bti = id
         /\ BlockTripEntry.block_trip_index_id bte = id
         /\ BlockTripEntry.trip_id bte = Trip.id tr
         /\ Trip.route_id tr = route
         /\ In (BlockTripEntry.service_id bte) ids.
Proof.
  split; [apply distinct_sorted_strictly | apply in_index_ids].
Qed.

Lemma served_refers : entries_refer_to_indices Scenario.block_b1_indexed.
Proof.
  intros e H. vm_compute in H.
  exists (BlockTripIndex.mk 1 "B1|A,B" "s1" "A,B" 0).
  split; [vm_compute; tauto|].
  destruct H as [<- | [<- | []]]; reflexivity.
Defined.



(** X11. From blocks to index ids and back: a listed block that has an
    entry under a listed service is among the blocks of the index ids
    found for the listed blocks; the blocks returned are never NULL and
    none is returned twice. *)
Theorem blocks_round_trip db block_ids ids :
  (forall b e,
     In b block_ids -> In e (block_trip_entry db) ->
     BlockTripEntry.block_id e = Some b ->
     In (BlockTripEntry.service_id e) ids ->
     In (Some b)
        (GetBlocksForBlockTripIndexIDs db
           (GetBlockTripIndexIDsForBlocks db block_ids ids) ids))
  /\ (forall index_ids,
        ~ In None (GetBlocksForBlockTripIndexIDs db index_ids ids)
        /\ NoDup (GetBlocksForBlockTripIndexIDs db index_ids ids)).
Proof.
  split.
  - intros b e Hb He B S. unfold GetBlocksForBlockTripIndexIDs.
    apply nodup_In, in_map_iff. exists e. split; [assumption|].
    apply filter_In. split; [assumption|].
    rewrite B, !andb_true_iff, SqlFacts.in_ints_true, SqlFacts.in_slice_true.
    repeat split; auto.
    unfold GetBlockTripIndexIDsForBlocks. apply in_distinct_sorted, in_map.
    apply filter_In. split; [assumption|].
    rewrite B. cbn [null_in_slice].
    rewrite andb_true_iff, !SqlFacts.in_slice_true. tauto.
  - intros index_ids. unfold GetBlocksForBlockTripIndexIDs. split.
    + rewrite nodup_In, in_map_iff. intros (e & E & H).
      apply filter_In in H as (_ & W). rewrite E in W.
      now rewrite andb_false_r in W.
    + apply NoDup_nodup.
Qed.

Lemma blocks_round_trip_witness :
  In (Some "B1")
     (GetBlocksForBlockTripIndexIDs Scenario.block_b1_indexed
        (GetBlockTripIndexIDsForBlocks Scenario.block_b1_indexed ["B1"] ["s1"])
        ["s1"]).
Proof.
  apply (proj1 (blocks_round_trip Scenario.block_b1_indexed ["B1"] ["s1"])
           "B1" (BlockTripEntry.mk 1 "T1" (Some "B1") "s1" 0)).
  - simpl. auto.
  - vm_compute. auto.
  - reflexivity.
  - simpl. auto.
Defined.

End IndexLookupSpec.

(* ================================================================= *)
(** ** Schedule windows and schedules on a date *)

Module ScheduleSpec.
Import Lookup.

(** X12. A window whose end lies before its start holds no stop event:
    [GetStopTimesForStopInWindow] returns no row. *)
Theorem inverted_window_is_empty db stop ws we :
  we < ws -> Window.GetStopTimesForStopInWindow db stop ws we = [].
Proof.
  intros L. unfold Window.GetStopTimesForStopInWindow.
  rewrite (BuilderSpec.filter_uniform _ false); [reflexivity|].
  intros r _. unfold Window.in_window, Sql.between.
  destruct (ws <=? StopTime.arrival_time (Window.st r)) eqn:A,
           (StopTime.arrival_time (Window.st r) <=? we) eqn:B,
           (ws <=? StopTime.departure_time (Window.st r)) eqn:C,
           (StopTime.departure_time (Window.st r) <=? we) eqn:D;
    rewrite ?andb_false_r; try reflexivity;
    rewrite ?Z.leb_le in *; lia.
Qed.

Lemma inverted_window_is_empty_witness :
  Window.GetStopTimesForStopInWindow Scenario.one_stop "A" 150 110 = [].
Proof.
  apply (inverted_window_is_empty Scenario.one_stop "A" 150 110). lia.
Defined.

(** X13. Widening the window never loses a row of
    [GetStopTimesForStopInWindow]. *)
Theorem wider_window_keeps_rows db stop ws we ws' we' row :
  ws' <= ws -> we <= we' ->
  In row (Window.GetStopTimesForStopInWindow db stop ws we) ->
  In row (Window.GetStopTimesForStopInWindow db stop ws' we').
Proof.
  unfold Window.GetStopTimesForStopInWindow, Sql.asc. intros L U.
  rewrite !SqlFacts.order_by_in, !filter_In, !WindowSpec.in_window_spec.
  intros (H & E & W). repeat split; auto. lia.
Qed.

Lemma wider_window_keeps_rows_witness :
  In (Window.with_trip (Scenario.stop_event "T1" 1 100 110 "A")
                       (Scenario.trip "T1" "s1" "B1"))
     (Window.GetStopTimesForStopInWindow Scenario.one_stop "A" 0 500).
Proof.
  apply (wider_window_keeps_rows Scenario.one_stop "A" 110 150 0 500);
    [lia | lia |].
  vm_compute. auto.
Defined.

(** *** [GetScheduleForStopOnDate] and the active service set *)

Lemma weekday_in_range date w :
  Resolver.formatted_date date = Some w -> 0 <= w < 7.
Proof.
  unfold Resolver.formatted_date, Resolver.strftime_w.
  destruct (Resolver.parse_ymd _) as [((y, m), d)|]; [|discriminate].
  intros [= <-]. unfold Resolver.day_of_week. apply Z.mod_pos_bound. lia.
Qed.

Lemma named_day_runs_on w k name flag :
  0 <= w < 7 -> 0 <= k < 7 -> name = weekday_name k ->
  named_day (weekday_name w) name flag = Resolver.runs_on (Some w) k flag.
Proof.
  intros Hw Hk ->. unfold named_day, Resolver.runs_on. f_equal.
  assert (Cw : w = 0 \/ w = 1 \/ w = 2 \/ w = 3 \/ w = 4 \/ w = 5 \/ w = 6)
    by lia.
  assert (Ck : k = 0 \/ k = 1 \/ k = 2 \/ k = 3 \/ k = 4 \/ k = 5 \/ k = 6)
    by lia.
  destruct Cw as [-> | [-> | [-> | [-> | [-> | [-> | ->]]]]]];
    destruct Ck as [-> | [-> | [-> | [-> | [-> | [-> | ->]]]]]];
    reflexivity.
Qed.

Lemma base_on_weekday db date w :
  Resolver.formatted_date date = Some w ->
  base_on db date (weekday_name w) = Resolver.base_services db date.
Proof.
  intros F. pose proof (weekday_in_range _ _ F) as R.
  unfold base_on, Resolver.base_services. rewrite F. f_equal.
  apply filter_ext. intros c. f_equal.
  unfold Resolver.weekday_flag_set.
  rewrite (named_day_runs_on w 0), (named_day_runs_on w 1),
    (named_day_runs_on w 2),
    (named_day_runs_on w 3), (named_day_runs_on w 4),
    (named_day_runs_on w 5), (named_day_runs_on w 6)
    by (reflexivity || lia).
  reflexivity.
Qed.

Lemma left_join_inhabited {B} (l : list B) : exists x, In x (left_join l).
Proof.
  destruct l as [|b r]; [exists None | exists (Some b)]; simpl; auto.
Qed.

Lemma left_join_null {B} (l : list B) x :
  In x (left_join l) -> (is_null x = true <-> l = []).
Proof.
  destruct l as [|b r]; cbn [left_join].
  - intros [<- | []]. now split.
  - intros H. apply in_map_iff in H as (y & <- & _).
    split; discriminate.
Qed.

Lemma no_same_service tr l :
  filter (same_service tr) l = [] <-> ~ In (Trip.service_id tr) l.
Proof.
  split.
  - intros E H. assert (In (Trip.service_id tr) (filter (same_service tr) l)).
    { apply filter_In. split; [assumption|]. apply String.eqb_refl. }
    rewrite E in *. contradiction.
  - intros N. rewrite (BuilderSpec.filter_uniform _ false); [reflexivity|].
    intros x Hx. unfold same_service.
    destruct (String.eqb_spec (Trip.service_id tr) x); [subst; contradiction|].
    reflexivity.
Qed.

Lemma in_stop_trip_route db s tr r :
  In (s, tr, r)
     (flat_map (fun s => flat_map (fun tr => map (fun r => (s, tr, r))
                                                 (Window.routes_of db tr))
                                  (Window.trips_of db s))
               (stop_times db)) <->
  In s (stop_times db) /\ In tr (trips db) /\ In r (routes db)
  /\ StopTime.trip_id s = Trip.id tr /\ Trip.route_id tr = Route.id r.
Proof.
  rewrite in_flat_map. unfold Window.routes_of, Window.trips_of. split.
  - intros (s' & Hs & H). apply in_flat_map in H as (tr' & Htr & H).
    apply in_map_iff in H as (r' & [= <- <- <-] & Hr).
    apply filter_In in Htr as (Htr & E1). apply filter_In in Hr as (Hr & E2).
    apply String.eqb_eq in E1, E2. tauto.
  - intros (Hs & Htr & Hr & E1 & E2). exists s. split; [assumption|].
    apply in_flat_map. exists tr. split.
    + apply filter_In. split; [assumption|]. now apply String.eqb_eq.
    + apply in_map, filter_In. split; [assumption|]. now apply String.eqb_eq.
Qed.

Lemma in_schedule_joins db date weekday j :
  In j (schedule_joins db date weekday) <->
  (In (j_st j) (stop_times db) /\ In (j_trip j) (trips db)
   /\ In (j_route j) (routes db)
   /\ StopTime.trip_id (j_st j) = Trip.id (j_trip j)
   /\ Trip.route_id (j_trip j) = Route.id (j_route j))
  /\ In (j_base j)
        (left_join (filter (same_service (j_trip j))
                           (base_on db date weekday)))
  /\ In (j_removed j)
        (left_join (filter (same_service (j_trip j))
                           (Resolver.removed_services db date)))
  /\ In (j_added j)
        (left_join (filter (same_service (j_trip j))
                           (Resolver.added_services db date))).
Proof.
  unfold schedule_joins. rewrite in_flat_map. split.
  - intros (((s, tr), r) & H & Hj).
    apply in_stop_trip_route in H.
    apply in_flat_map in Hj as (b & Hb & Hj).
    apply in_flat_map in Hj as (rm & Hrm & Hj).
    apply in_map_iff in Hj as (ad & <- & Had). cbn. tauto.
  - intros (H & Hb & Hrm & Had).
    exists (j_st j, j_trip j, j_route j). split.
    + now apply in_stop_trip_route.
    + apply in_flat_map. exists (j_base j). split; [assumption|].
      apply in_flat_map. exists (j_removed j). split; [assumption|].
      apply in_map_iff. exists (j_added j). split; [|assumption].
      now destruct j.
Qed.

(** X14. [GetScheduleForStopOnDate], given the weekday name of the
    date, returns the stop events of the stop on the listed routes whose
    trip runs under a service that [GetActiveServiceIDsForDate] reports
    for that date, and only those. *)
Theorem schedule_on_date_follows_active_services db date w stop route_ids row :
  Resolver.formatted_date date = Some w ->
  In row (GetScheduleForStopOnDate db date (weekday_name w) stop route_ids)
  <->
  exists s tr r,
    In s (stop_times db) /\ In tr (trips db) /\ In r (routes db)
    /\ StopTime.trip_id s = Trip.id tr /\ Trip.route_id tr = Route.id r
    /\ StopTime.stop_id s = stop /\ In (Route.id r) route_ids
    /\ In (Trip.service_id tr) (Resolver.GetActiveServiceIDsForDate db date)
    /\ row = select_schedule (mkJoin s tr r None None None).
Proof.
  intros F. unfold GetScheduleForStopOnDate.
  rewrite in_map_iff. split.
  - intros (j & <- & H). apply SqlFacts.order_by_in, filter_In in H as (H & W).
    apply in_schedule_joins in H as (J & Hb & Hrm & Had).
    unfold schedule_where in W.
    rewrite !andb_true_iff, String.eqb_eq, SqlFacts.in_slice_true in W.
    destruct W as ((St & Cond) & Rt).
    exists (j_st j), (j_trip j), (j_route j).
    repeat split; try tauto.
    apply ResolverSpec.active_iff.
    rewrite (base_on_weekday _ _ _ F) in Hb.
    pose proof (left_join_null _ _ Hb) as Nb.
    pose proof (left_join_null _ _ Hrm) as Nrm.
    pose proof (left_join_null _ _ Had) as Nad.
    rewrite no_same_service in Nb, Nrm, Nad.
    apply orb_true_iff in Cond as [C | C].
    + apply andb_true_iff in C as (C1 & C2). left. split.
      * destruct (is_null (j_base j)); [discriminate|].
        destruct (in_dec string_dec (Trip.service_id (j_trip j))
                    (Resolver.base_services db date)); auto.
        exfalso. assert (false = true) by now apply Nb. discriminate.
      * now apply Nrm.
    + right. destruct (is_null (j_added j)); [discriminate|].
      destruct (in_dec string_dec (Trip.service_id (j_trip j))
                  (Resolver.added_services db date)); auto.
      exfalso. assert (false = true) by now apply Nad. discriminate.
  - intros (s & tr & r & Hs & Htr & Hr & E1 & E2 & St & Rt & A & ->).
    destruct (left_join_inhabited
                (filter (same_service tr) (base_on db date (weekday_name w))))
      as (b & Hb).
    destruct (left_join_inhabited
                (filter (same_service tr) (Resolver.removed_services db date)))
      as (rm & Hrm).
    destruct (left_join_inhabited
                (filter (same_service tr) (Resolver.added_services db date)))
      as (ad & Had).
    exists (mkJoin s tr r b rm ad). split; [reflexivity|].
    apply SqlFacts.order_by_in, filter_In. split.
    + apply in_schedule_joins. cbn. tauto.
    + unfold schedule_where. cbn.
      rewrite !andb_true_iff, String.eqb_eq, SqlFacts.in_slice_true.
      repeat split; auto.
      pose proof (left_join_null _ _ Hb) as Nb.
      pose proof (left_join_null _ _ Hrm) as Nrm.
      pose proof (left_join_null _ _ Had) as Nad.
      rewrite (base_on_weekday _ _ _ F) in Nb.
      rewrite no_same_service in Nb, Nrm, Nad.
      apply ResolverSpec.active_iff in A as [(B & R) | A].
      * apply orb_true_iff. left. apply andb_true_iff. split.
        -- destruct (is_null b); [|reflexivity].
           exfalso. now apply (proj1 Nb).
        -- now apply Nrm.
      * apply orb_true_iff. right.
        destruct (is_null ad); [|reflexivity].
        exfalso. now apply (proj1 Nad).
Qed.

Lemma schedule_on_date_follows_active_services_witness :
  Resolver.formatted_date "20250113" = Some 1
  /\ In (select_schedule
           (mkJoin (Scenario.stop_event "T1" 1 28800 28800 "A")
                   (Scenario.trip "T1" "s1" "B1")
                   (Route.mk "R1" "40" None None) None None None))
        (GetScheduleForStopOnDate Sample.served "20250113" "monday" "A"
                                  ["R1"]).
Proof.
  assert (F : Resolver.formatted_date "20250113" = Some 1) by reflexivity.
  split; [exact F|].
  apply (schedule_on_date_follows_active_services Sample.served "20250113" 1
           "A" ["R1"] _ F).
  exists (Scenario.stop_event "T1" 1 28800 28800 "A"),
         (Scenario.trip "T1" "s1" "B1"), (Route.mk "R1" "40" None None).
  repeat split; try (vm_compute; tauto).
Defined.

End ScheduleSpec.

(* ================================================================= *)
(** ** Go values *)

Module GoFacts.

Lemma wrap_in_range z : Go.int_min <= z <= Go.int_max -> Go.wrap z = z.
Proof.
  unfold Go.wrap, Go.int_min, Go.int_max. intros H.
  rewrite Z.mod_small; lia.
Qed.

Lemma Atoi_in_range s v :
  Go.Atoi s = Some v -> Go.int_min <= v <= Go.int_max.
Proof.
  unfold Go.Atoi. destruct s as [|c r]; [discriminate|].
  cbv zeta.
  destruct (if (Ascii.eqb c "-" || Ascii.eqb c "+")%bool then r
            else String c r); [discriminate|].
  destruct (Resolver.digits _ 0); [|discriminate].
  destruct (_ && _) eqn:R; [|discriminate].
  intros [= <-]. apply andb_true_iff in R. lia.
Qed.

Lemma split_underscore_some s : forall a b,
  Go.split_underscore s = Some (a, b) <->
  s = (a ++ "_" ++ b)%string /\ Go.has_underscore a = false.
Proof.
  induction s as [|c r IH]; intros a b; cbn [Go.split_underscore].
  - split; [discriminate|]. intros (E & _). destruct a; discriminate.
  - destruct (Ascii.eqb c "_") eqn:C.
    + apply Ascii.eqb_eq in C. subst c. split.
      * intros [= <- <-]. split; reflexivity.
      * intros (E & U). destruct a as [|c' a'].
        -- cbn in E. now injection E as <-.
        -- cbn in E. injection E as <- _. cbn in U. discriminate.
    + destruct (Go.split_underscore r) as [(a', b')|].
      * pose proof (proj1 (IH a' b') eq_refl) as (E0 & U). split.
        -- intros [= <- <-]. split; [now rewrite E0|].
           cbn. now rewrite C, U.
        -- intros (E & U'). destruct a as [|c' a''].
           ++ cbn in E. injection E as -> _.
              rewrite Ascii.eqb_refl in C. discriminate.
           ++ cbn in E. injection E as <- E. cbn in U'.
              rewrite C in U'. cbn in U'.
              pose proof (proj2 (IH a'' b) (conj E U')) as [= -> ->].
              reflexivity.
      * split; [discriminate|]. intros (E & U).
        destruct a as [|c' a''].
        -- cbn in E. injection E as -> _.
           rewrite Ascii.eqb_refl in C. discriminate.
        -- cbn in E. injection E as <- E. cbn in U. rewrite C in U.
           cbn in U.
           pose proof (proj2 (IH a'' b) (conj E U)). discriminate.
Qed.

Lemma split_underscore_none s :
  Go.split_underscore s = None <-> Go.has_underscore s = false.
Proof.
  induction s as [|c r IH]; cbn; [tauto|].
  destruct (Ascii.eqb c "_"); cbn.
  - split; discriminate.
  - rewrite <- IH. destruct (Go.split_underscore r) as [(a, b)|].
    + split; discriminate.
    + tauto.
Qed.

Lemma slice_ok {T} (items : list T) lo hi :
  0 <= lo <= hi -> hi <= Z.of_nat (List.length items) ->
  Go.slice items lo hi
  = Some (firstn (Z.to_nat (hi - lo)) (skipn (Z.to_nat lo) items)).
Proof.
  intros H1 H2. unfold Go.slice.
  replace (0 <=? lo) with true by (symmetry; apply Z.leb_le; lia).
  replace (lo <=? hi) with true by (symmetry; apply Z.leb_le; lia).
  replace (hi <=? _) with true by (symmetry; apply Z.leb_le; lia).
  reflexivity.
Qed.

Lemma slice_panics {T} (items : list T) lo hi :
  lo < 0 \/ hi < lo -> Go.slice items lo hi = None.
Proof.
  intros H. unfold Go.slice.
  destruct (0 <=? lo) eqn:A; [|reflexivity].
  destruct (lo <=? hi) eqn:B; [|reflexivity].
  apply Z.leb_le in A, B. lia.
Qed.

End GoFacts.

(* ================================================================= *)
(** ** Combined identifiers *)

Module CombinedIdSpec.
Import Utils.

Lemma extract_joined a c :
  Go.has_underscore a = false ->
  ExtractAgencyIDAndCodeID (a ++ "_" ++ c) = Ok (a, c).
Proof.
  intros U. unfold ExtractAgencyIDAndCodeID, Go.SplitN2.
  now rewrite (proj2 (GoFacts.split_underscore_some _ a c) (conj eq_refl U)).
Qed.

(** X17. [ExtractAgencyIDAndCodeID] succeeds with agency [a] and code
    [c] exactly on the texts [a_c] in which [a] holds no underscore: the
    identifier is cut at its first underscore, and later underscores stay
    in the code. *)
Theorem extract_splits_at_first_underscore s a c :
  Utils.ExtractAgencyIDAndCodeID s = Utils.Ok (a, c) <->
  s = (a ++ "_" ++ c)%string /\ Go.has_underscore a = false.
Proof.
  rewrite <- GoFacts.split_underscore_some.
  unfold ExtractAgencyIDAndCodeID, Go.SplitN2.
  destruct (Go.split_underscore s) as [(a', c')|].
  - split; intros [= <- <-]; reflexivity.
  - split; discriminate.
Qed.

(** X18. The three extractors agree: on an identifier with an
    underscore [ExtractAgencyID] and [ExtractCodeID] return the two
    halves that [ExtractAgencyIDAndCodeID] returns, and on an identifier
    without one all three fail with the identifier in the message. *)
Theorem extractors_agree s :
  match Utils.ExtractAgencyIDAndCodeID s with
  | Utils.Ok (a, c) =>
      Utils.ExtractAgencyID s = Utils.Ok a
      /\ Utils.ExtractCodeID s = Utils.Ok c
      /\ Go.has_underscore s = true
  | Utils.InvalidFormat e =>
      e = s
      /\ Utils.ExtractAgencyID s = Utils.InvalidFormat s
      /\ Utils.ExtractCodeID s = Utils.InvalidFormat s
      /\ Go.has_underscore s = false
  end.
Proof.
  unfold ExtractAgencyIDAndCodeID, ExtractAgencyID, ExtractCodeID, Go.SplitN2.
  destruct (Go.split_underscore s) as [(a, c)|] eqn:S.
  - repeat split.
    destruct (Go.has_underscore s) eqn:U; [reflexivity|].
    apply GoFacts.split_underscore_none in U. congruence.
  - repeat split. now apply GoFacts.split_underscore_none.
Qed.

(** X19. Forming a combined identifier and splitting it gives the two
    parts back, when both are non-empty and the agency holds no
    underscore. *)
Theorem combined_id_round_trip agencyID codeID :
  agencyID <> "" -> codeID <> "" -> Go.has_underscore agencyID = false ->
  Utils.ExtractAgencyIDAndCodeID (Utils.FormCombinedID agencyID codeID)
  = Utils.Ok (agencyID, codeID).
Proof.
  intros A C U. unfold FormCombinedID.
  destruct (String.eqb_spec codeID ""); [contradiction|].
  destruct (String.eqb_spec agencyID ""); [contradiction|].
  cbn [orb]. now apply extract_joined.
Qed.

Lemma combined_id_round_trip_witness :
  Utils.ExtractAgencyIDAndCodeID (Utils.FormCombinedID "40" "100_x")
  = Utils.Ok ("40", "100_x").
Proof.
  apply (combined_id_round_trip "40" "100_x");
    [discriminate | discriminate | reflexivity].
Defined.

End CombinedIdSpec.

(* ================================================================= *)
(** ** Pagination *)

Module PaginationSpec.
Import Utils.

Lemma firstn_long {T} (l : list T) n :
  (List.length l <= n)%nat -> firstn n l = l.
Proof.
  revert n. induction l as [|a l IH]; intros [|n] H; cbn in *;
    try reflexivity; try lia.
  f_equal. apply IH. lia.
Qed.

Lemma skipn_long {T} (l : list T) n :
  (List.length l <= n)%nat -> skipn n l = [].
Proof.
  revert n. induction l as [|a l IH]; intros [|n] H; cbn in *;
    try reflexivity; try lia.
  apply IH. lia.
Qed.

Lemma skipn_short {T} (l : list T) n :
  (n < List.length l)%nat -> skipn n l <> [].
Proof.
  revert n. induction l as [|a l IH]; intros [|n] H; cbn in *;
    try lia; try discriminate.
  apply IH. lia.
Qed.

Lemma length_skipn {T} (l : list T) n :
  List.length (skipn n l) = (List.length l - n)%nat.
Proof.
  revert n. induction l as [|a l IH]; intros [|n]; cbn; auto.
Qed.

Lemma skipn_add {T} (l : list T) n m :
  skipn m (skipn n l) = skipn (n + m) l.
Proof.
  revert l. induction n as [|n IH]; intros [|a l]; cbn; auto.
  now destruct m.
Qed.

Lemma paginate_unbounded {T} (items : list T) offset :
  0 <= offset ->
  PaginateSlice items offset (-1)
  = Some (skipn (Z.to_nat offset) items, false).
Proof.
  intros H. unfold PaginateSlice. cbv zeta.
  destruct (offset >=? _) eqn:G.
  - rewrite skipn_long; [reflexivity|]. lia.
  - cbn [Z.eqb Pos.eqb]. change (-1 =? -1) with true. cbv iota.
    rewrite GoFacts.slice_ok by lia. cbn [option_map].
    rewrite firstn_long; [reflexivity|]. rewrite length_skipn. lia.
Qed.

Lemma paginate_bounded {T} (items : list T) offset limit :
  0 <= offset -> 0 <= limit -> offset + limit <= Go.int_max ->
  PaginateSlice items offset limit
  = Some (firstn (Z.to_nat limit) (skipn (Z.to_nat offset) items),
          offset + limit <? Z.of_nat (List.length items)).
Proof.
  intros H1 H2 H3. unfold PaginateSlice. cbv zeta.
  destruct (offset >=? _) eqn:G.
  - rewrite skipn_long by lia. rewrite firstn_nil.
    replace (offset + limit <? _) with false
      by (symmetry; apply Z.ltb_ge; lia).
    reflexivity.
  - replace (limit =? -1) with false by (symmetry; apply Z.eqb_neq; lia).
    unfold Go.add. rewrite GoFacts.wrap_in_range
      by (unfold Go.int_min, Go.int_max in *; lia).
    destruct (offset + limit <? _) eqn:L.
    + rewrite GoFacts.slice_ok by lia. cbn [option_map].
      do 3 f_equal. lia.
    + rewrite GoFacts.slice_ok by lia. cbn [option_map].
      do 2 f_equal.
      rewrite !firstn_long; [reflexivity| |]; rewrite length_skipn; lia.
Qed.

Lemma offset_bounds q :
  0 <= fst (ParsePaginationParams q) <= Go.int_max.
Proof.
  unfold ParsePaginationParams. cbv zeta. cbn [fst].
  assert (0 <= Go.int_max) by (unfold Go.int_max; lia).
  destruct (negb _); [|lia].
  destruct (Go.Atoi _) as [p|] eqn:A; [|lia].
  apply GoFacts.Atoi_in_range in A.
  destruct (p >=? 0) eqn:P; lia.
Qed.

Lemma limit_bounds q :
  snd (ParsePaginationParams q) = -1
  \/ 1 <= snd (ParsePaginationParams q) <= 1000.
Proof.
  unfold ParsePaginationParams. cbv zeta. cbn [snd].
  assert (P : forall val,
             let v := match Go.Atoi val with
                      | Some parsed => if parsed >? 0 then parsed else -1
                      | None => -1
                      end in
             (if v >? 1000 then 1000 else v) = -1
             \/ 1 <= (if v >? 1000 then 1000 else v) <= 1000).
  { intros val. cbv zeta. destruct (Go.Atoi val) as [p|].
    - destruct (p >? 0) eqn:P0.
      + destruct (p >? 1000) eqn:P1; lia.
      + left. reflexivity.
    - left. reflexivity. }
  destruct (negb (String.eqb (Go.Get q "maxCount") "")); [apply P|].
  destruct (negb (String.eqb (Go.Get q "limit") "")); [apply P|].
  left. reflexivity.
Qed.

(** X20. For a non-negative offset and limit whose sum fits in an
    [int], [PaginateSlice] returns the [limit] items that follow the
    first [offset] ones (fewer at the end of the list), and reports more
    items exactly when the list goes on past them. *)
Theorem paginate_window {T} (items : list T) offset limit :
  0 <= offset -> 0 <= limit -> offset + limit <= Go.int_max ->
  exists page,
    Utils.PaginateSlice items offset limit
    = Some (page, offset + limit <? Z.of_nat (List.length items))
    /\ page = firstn (Z.to_nat limit) (skipn (Z.to_nat offset) items)
    /\ Z.of_nat (List.length page) <= limit.
Proof.
  intros H1 H2 H3. eexists. split; [now apply paginate_bounded|].
  split; [reflexivity|]. rewrite length_firstn. lia.
Qed.

Lemma paginate_window_witness :
  exists page,
    Utils.PaginateSlice ["a"; "b"; "c"; "d"; "e"] 1 2 = Some (page, true)
    /\ page = ["b"; "c"]
    /\ Z.of_nat (List.length page) <= 2.
Proof.
  apply (paginate_window ["a"; "b"; "c"; "d"; "e"] 1 2);
    unfold Go.int_max; lia.
Defined.

(** X21. With the limit [-1] and a non-negative offset [PaginateSlice]
    returns every item after the first [offset] ones, so that the items
    skipped and the page make up the list, and never reports more. *)
Theorem paginate_rest {T} (items : list T) offset :
  0 <= offset ->
  exists page,
    Utils.PaginateSlice items offset (-1) = Some (page, false)
    /\ (firstn (Z.to_nat offset) items ++ page)%list = items.
Proof.
  intros H. rewrite paginate_unbounded by assumption.
  eexists. split; [reflexivity|]. apply firstn_skipn.
Qed.

Lemma paginate_rest_witness :
  exists page,
    Utils.PaginateSlice ["a"; "b"; "c"] 1 (-1) = Some (page, false)
    /\ (firstn (Z.to_nat 1) ["a"; "b"; "c"] ++ page)%list = ["a"; "b"; "c"].
Proof. apply (paginate_rest ["a"; "b"; "c"] 1). lia. Defined.

(** X22. A negative offset makes [PaginateSlice] panic, whatever the
    items and the limit: the slice expression gets a negative lower
    bound. *)
Theorem negative_offset_panics {T} (items : list T) offset limit :
  offset < 0 -> Utils.PaginateSlice items offset limit = None.
Proof.
  intros H. unfold PaginateSlice. cbv zeta.
  destruct (offset >=? _) eqn:G; [apply Z.geb_le in G; lia|].
  destruct (limit =? -1); rewrite GoFacts.slice_panics by lia; reflexivity.
Qed.

Lemma negative_offset_panics_witness :
  Utils.PaginateSlice ["a"; "b"] (-1) 10 = None.
Proof. apply (negative_offset_panics ["a"; "b"] (-1) 10). lia. Defined.

(** X23. A limit below [-1] makes [PaginateSlice] panic whenever the
    offset lies inside the list: the upper bound of the slice expression
    falls below its lower bound. *)
Theorem negative_limit_panics {T} (items : list T) offset limit :
  0 <= offset < Z.of_nat (List.length items) -> offset <= Go.int_max ->
  Go.int_min <= limit < -1 ->
  Utils.PaginateSlice items offset limit = None.
Proof.
  intros H1 H0 H2. unfold PaginateSlice. cbv zeta.
  destruct (offset >=? _) eqn:G; [apply Z.geb_le in G; lia|].
  destruct (Z.eqb_spec limit (-1)) as [E | _]; [lia|].
  unfold Go.add. rewrite GoFacts.wrap_in_range
    by (unfold Go.int_min, Go.int_max in *; lia).
  destruct (Z.ltb_spec (offset + limit) (Z.of_nat (List.length items)));
    [|lia].
  rewrite GoFacts.slice_panics by lia. reflexivity.
Qed.

Lemma negative_limit_panics_witness :
  Utils.PaginateSlice ["a"; "b"] 0 (-2) = None.
Proof.
  apply (negative_limit_panics ["a"; "b"] 0 (-2));
    unfold Go.int_min, Go.int_max; cbn; lia.
Defined.

(** X24. Pages tile the list: the page at [offset] followed by
    everything from [offset + limit] on is everything from [offset] on,
    and the page reports more items exactly when that remainder is not
    empty. *)
Theorem pages_tile {T} (items page : list T) offset limit more :
  0 <= offset -> 0 <= limit -> offset + limit <= Go.int_max ->
  Utils.PaginateSlice items offset limit = Some (page, more) ->
  exists rest,
    Utils.PaginateSlice items (offset + limit) (-1) = Some (rest, false)
    /\ (page ++ rest)%list = skipn (Z.to_nat offset) items
    /\ (more = true <-> rest <> []).
Proof.
  intros H1 H2 H3 E. rewrite paginate_bounded in E by assumption.
  injection E as <- <-.
  exists (skipn (Z.to_nat (offset + limit)) items).
  split; [apply paginate_unbounded; lia|]. split.
  - rewrite Z2Nat.inj_add, <- skipn_add by lia. apply firstn_skipn.
  - rewrite Z.ltb_lt. split.
    + intros L. apply skipn_short. lia.
    + intros N.
      destruct (Z.lt_ge_cases (offset + limit) (Z.of_nat (List.length items)))
        as [L | L]; [assumption|].
      exfalso. apply N, skipn_long. lia.
Qed.

Lemma pages_tile_witness :
  exists rest,
    Utils.PaginateSlice ["a"; "b"; "c"; "d"; "e"] (1 + 2) (-1)
    = Some (rest, false)
    /\ (["b"; "c"] ++ rest)%list
       = skipn (Z.to_nat 1) ["a"; "b"; "c"; "d"; "e"]
    /\ (true = true <-> rest <> []).
Proof.
  apply (pages_tile ["a"; "b"; "c"; "d"; "e"] ["b"; "c"] 1 2 true);
    try (unfold Go.int_max; lia).
  reflexivity.
Defined.

(** X25. [ParsePaginationParams] never returns a negative offset, and
    its limit is either [-1] or between 1 and 1000, whatever the query
    holds. *)
Theorem pagination_params_bounds q :
  0 <= fst (Utils.ParsePaginationParams q) <= Go.int_max
  /\ (snd (Utils.ParsePaginationParams q) = -1
      \/ 1 <= snd (Utils.ParsePaginationParams q) <= 1000).
Proof. split; [apply offset_bounds | apply limit_bounds]. Qed.

(** X26. When the query has a non-empty [maxCount], the limit is read
    from it alone: the [limit] parameter changes nothing, also when
    [maxCount] is not a positive number. *)
Theorem max_count_overrides_limit q q' :
  Go.Get q "maxCount" <> "" ->
  Go.Get q' "maxCount" = Go.Get q "maxCount" ->
  snd (Utils.ParsePaginationParams q') = snd (Utils.ParsePaginationParams q).
Proof.
  intros N E. unfold ParsePaginationParams. cbv zeta. cbn [snd].
  rewrite E. destruct (String.eqb_spec (Go.Get q "maxCount") "");
    [contradiction|]. reflexivity.
Qed.

Lemma max_count_overrides_limit_witness :
  snd (Utils.ParsePaginationParams (Sample.query [] ["abc"] ["20"]))
  = snd (Utils.ParsePaginationParams (Sample.query [] ["abc"] [])).
Proof.
  apply (max_count_overrides_limit (Sample.query [] ["abc"] [])
           (Sample.query [] ["abc"] ["20"]));
    [discriminate | reflexivity].
Defined.

(** X27. Paginating with the parameters read from a request never
    panics, for a list at least 1000 short of the largest [int]; and a
    page cut by a limit holds at most 1000 items. *)
Theorem paginated_request_never_panics {T} (items : list T) q :
  Z.of_nat (List.length items) <= Go.int_max - 1000 ->
  exists page more,
    Utils.PaginateSlice items (fst (Utils.ParsePaginationParams q))
                        (snd (Utils.ParsePaginationParams q))
    = Some (page, more)
    /\ (snd (Utils.ParsePaginationParams q) <> -1 ->
        Z.of_nat (List.length page) <= 1000).
Proof.
  intros L. destruct (offset_bounds q) as (O1 & O2).
  pose proof (limit_bounds q) as Lim.
  set (offset := fst (ParsePaginationParams q)) in *.
  set (limit := snd (ParsePaginationParams q)) in *.
  destruct (Z.lt_ge_cases offset (Z.of_nat (List.length items))) as [In | Out].
  - destruct Lim as [-> | Lim].
    + rewrite paginate_unbounded by lia. do 2 eexists.
      split; [reflexivity|]. intros N. now contradiction N.
    + rewrite paginate_bounded by lia. do 2 eexists.
      split; [reflexivity|]. intros _. rewrite length_firstn. lia.
  - unfold PaginateSlice. cbv zeta.
    destruct (offset >=? _) eqn:G;
      [|rewrite Z.geb_leb in G; apply Z.leb_gt in G; lia].
    exists [], false. split; [reflexivity|]. cbn. lia.
Qed.

Lemma paginated_request_never_panics_witness :
  exists page more,
    Utils.PaginateSlice ["a"; "b"; "c"]
      (fst (Utils.ParsePaginationParams (Sample.query ["1"] ["1"] [])))
      (snd (Utils.ParsePaginationParams (Sample.query ["1"] ["1"] [])))
    = Some (page, more)
    /\ (snd (Utils.ParsePaginationParams (Sample.query ["1"] ["1"] [])) <> -1
        -> Z.of_nat (List.length page) <= 1000).
Proof.
  apply (paginated_request_never_panics ["a"; "b"; "c"]
           (Sample.query ["1"] ["1"] [])).
  unfold Go.int_max. cbn. lia.
Defined.

Section MaxCountSpec.
Variable MaxAllowedCount : Z.

(** X28. [ParseMaxCount] returns the value of [maxCount] when it is a
    number between 1 and the allowed maximum, and the default count
    otherwise; it records a message under [maxCount], replacing any
    earlier ones, exactly when the parameter is given and not such a
    number, and never touches the messages of another field. *)
Theorem parse_max_count_outcome q defaultCount fieldErrors :
  let given := match fieldErrors with
               | Some m => m
               | None => Go.no_errors
               end in
  let out := Utils.ParseMaxCount MaxAllowedCount q defaultCount fieldErrors in
  (forall k, k <> "maxCount" -> snd out k = given k)
  /\ ((Go.Get q "maxCount" = "" /\ out = (defaultCount, given))
      \/ (exists n, Go.Atoi (Go.Get q "maxCount") = Some n
                    /\ 1 <= n <= MaxAllowedCount /\ out = (n, given))
      \/ (Go.Get q "maxCount" <> ""
          /\ (forall n, Go.Atoi (Go.Get q "maxCount") = Some n ->
                        n < 1 \/ MaxAllowedCount < n)
          /\ fst out = defaultCount
          /\ exists message, snd out "maxCount" = Some [message])).
Proof.
  cbv zeta. unfold ParseMaxCount. cbv zeta.
  set (given := match fieldErrors with Some m => m | None => Go.no_errors end).
  assert (K : forall msg k, k <> "maxCount" ->
                            Go.set_key given "maxCount" msg k = given k).
  { intros msg k N. unfold Go.set_key.
    destruct (String.eqb_spec k "maxCount"); [contradiction|reflexivity]. }
  assert (S : forall msg, Go.set_key given "maxCount" msg "maxCount" = Some msg)
    by reflexivity.
  destruct (String.eqb_spec (Go.Get q "maxCount") "") as [E | N]; cbn [negb].
  - split; [reflexivity|]. left. now split.
  - destruct (Go.Atoi (Go.Get q "maxCount")) as [p|] eqn:A.
    + destruct (p <=? 0) eqn:P0.
      * cbn [fst snd]. split; [apply K|]. right; right.
        split; [assumption|]. split; [|split; [reflexivity|]].
        -- intros n [= <-]. apply Z.leb_le in P0. lia.
        -- eexists. apply S.
      * destruct (p >? MaxAllowedCount) eqn:P1.
        -- cbn [fst snd]. split; [apply K|]. right; right.
           split; [assumption|]. split; [|split; [reflexivity|]].
           ++ intros n [= <-]. lia.
           ++ eexists. apply S.
        -- split; [reflexivity|]. right; left. exists p.
           split; [reflexivity|]. split; [|reflexivity].
           apply Z.leb_gt in P0. lia.
    + cbn [fst snd]. split; [apply K|]. right; right.
      split; [assumption|]. split; [|split; [reflexivity|]].
      * intros n. discriminate.
      * eexists. apply S.
Qed.

End MaxCountSpec.

End PaginationSpec.

(* ================================================================= *)
(** ** Route identifiers of a stop *)

Module RouteIdsSpec.
Import Lookup.

Lemma in_events_at db stop s tr r :
  In (s, tr, r) (Window.events_at db stop) <->
  In s (stop_times db) /\ In tr (trips db) /\ In r (routes db)
  /\ StopTime.trip_id s = Trip.id tr /\ Trip.route_id tr = Route.id r
  /\ StopTime.stop_id s = stop.
Proof.
  unfold Window.events_at. rewrite filter_In, ScheduleSpec.in_stop_trip_route.
  cbn [fst]. rewrite String.eqb_eq. tauto.
Qed.

Lemma in_route_ids db stop id :
  In id (GetRouteIDsForStop db stop) <->
  exists s tr r,
    In s (stop_times db) /\ In tr (trips db) /\ In r (routes db)
    /\ StopTime.trip_id s = Trip.id tr /\ Trip.route_id tr = Route.id r
    /\ StopTime.stop_id s = stop
    /\ id = (Route.agency_id r ++ "_" ++ Route.id r)%string.
Proof.
  unfold GetRouteIDsForStop. rewrite SqlFacts.in_distinct, in_map_iff. split.
  - intros (((s, tr), r) & <- & H). apply in_events_at in H.
    exists s, tr, r. cbn [snd]. tauto.
  - intros (s & tr & r & Hs & Htr & Hr & E1 & E2 & St & ->).
    exists (s, tr, r). split; [reflexivity|]. now apply in_events_at.
Qed.

(** X15. [GetRouteIDsForStop] lists, each once, the combined
    identifiers [agency_route] of the routes that have a trip with a stop
    event at the stop, and nothing else. *)
Theorem route_ids_for_stop db stop :
  NoDup (Lookup.GetRouteIDsForStop db stop)
  /\ forall id,
       In id (Lookup.GetRouteIDsForStop db stop) <->
       exists s tr r,
         In s (stop_times db) /\ In tr (trips db) /\ In r (routes db)
         /\ StopTime.trip_id s = Trip.id tr /\ Trip.route_id tr = Route.id r
         /\ StopTime.stop_id s = stop
         /\ id = (Route.agency_id r ++ "_" ++ Route.id r)%string.
Proof.
  split; [apply NoDup_nodup | apply in_route_ids].
Qed.

(** X16. When no agency identifier holds an underscore, every
    identifier that [GetRouteIDsForStop] returns is split by
    [ExtractAgencyIDAndCodeID] into the agency and the identifier of a
    route of the feed. *)
Theorem route_ids_split_back db stop id :
  (forall r, In r (routes db) -> Go.has_underscore (Route.agency_id r) = false)
  -> In id (Lookup.GetRouteIDsForStop db stop) ->
  exists r, In r (routes db)
            /\ Utils.ExtractAgencyIDAndCodeID id
               = Utils.Ok (Route.agency_id r, Route.id r).
Proof.
  intros U H. apply in_route_ids in H
    as (s & tr & r & _ & _ & Hr & _ & _ & _ & ->).
  exists r. split; [assumption|].
  apply CombinedIdSpec.extract_joined. now apply U.
Qed.

Lemma route_ids_split_back_witness :
  exists r, In r (routes Sample.served)
            /\ Utils.ExtractAgencyIDAndCodeID "40_R1"
               = Utils.Ok (Route.agency_id r, Route.id r).
Proof.
  apply (route_ids_split_back Sample.served "A" "40_R1").
  - intros r [<- | []]. reflexivity.
  - vm_compute. tauto.
Defined.

End RouteIdsSpec.

(* ================================================================= *)
(** ** Configuration *)

Module AppconfSpec.
Import Appconf.

Lemma check_keys_none seen keys :
  check_keys seen keys = None <->
  NoDup keys /\ ~ In "" keys /\ forall k, In k keys -> ~ In k seen.
Proof.
  revert seen. induction keys as [|key rest IH]; intros seen;
    cbn [check_keys].
  - split; [|reflexivity]. intros _. split; [constructor|].
    split; [tauto|]. intros k [].
  - destruct (String.eqb_spec key "") as [-> | N].
    + split; [discriminate|]. intros (_ & E & _). exfalso. apply E. now left.
    + destruct (Sql.in_slice key seen) eqn:S.
      * apply SqlFacts.in_slice_true in S.
        split; [discriminate|]. intros (_ & _ & D). exfalso.
        apply (D key); [now left | assumption].
      * assert (S' : ~ In key seen).
        { intros H. apply SqlFacts.in_slice_true in H. congruence. }
        rewrite IH. split.
        -- intros (ND & E & D). split; [|split].
           ++ constructor; [|assumption]. intros H. apply (D key H). now left.
           ++ intros [H | H]; [congruence | contradiction].
           ++ intros k [<- | H]; [assumption|].
              intros Hs. apply (D k H). now right.
        -- intros (ND & E & D). inversion ND as [|? ? Hn ND']; subst.
           split; [assumption|]. split.
           ++ intros H. apply E. now right.
           ++ intros k H [<- | Hs]; [contradiction|].
              apply (D k); [now right | assumption].
Qed.

Section PlatformSpec.
Variable Clean : string -> string.
Variable Separator : string.
Variable ToLower : string -> string.

(** X29. A configuration that [validate] accepts has a port between 1
    and 65535, one of the three environment names, a rate limit of at
    least 1, at least one API key, no empty and no repeated API key, and
    the two authentication header fields of the static feed both set or
    both empty. *)
Theorem validated_config_is_sound j :
  Appconf.validate Clean Separator ToLower j = None ->
  1 <= Port j <= 65535
  /\ In (Env j) ["development"; "test"; "production"]
  /\ 1 <= RateLimit j
  /\ ApiKeys j <> []
  /\ NoDup (ApiKeys j)
  /\ ~ In "" (ApiKeys j)
  /\ (AuthHeaderName (StaticFeed j) = ""
      <-> AuthHeaderValue (StaticFeed j) = "").
Proof.
  unfold validate.
  destruct ((Port j <? 1) || (Port j >? 65535)) eqn:P; [discriminate|].
  apply orb_false_iff in P as (P1 & P2).
  destruct (String.eqb (Env j) "development" || String.eqb (Env j) "test"
            || String.eqb (Env j) "production") eqn:E; [|discriminate].
  cbn [negb].
  destruct (RateLimit j <? 1) eqn:R; [discriminate|].
  destruct (ApiKeys j) as [|k0 ks] eqn:K; [discriminate|].
  cbn [is_empty].
  destruct (check_keys [] (k0 :: ks)) eqn:C; [discriminate|].
  apply check_keys_none in C as (ND & NE & _).
  destruct (validatePath _ _ _ _); [discriminate|].
  cbv zeta.
  destruct (String.eqb_spec (AuthHeaderName (StaticFeed j)) "") as [A | A];
    destruct (String.eqb_spec (AuthHeaderValue (StaticFeed j)) "") as [V | V];
    cbn [negb andb orb]; try discriminate; intros _.
  all: split; [apply Z.ltb_ge in P1; lia|].
  all: split;
    [ rewrite !orb_true_iff, !String.eqb_eq in E; cbn;
      intuition congruence |].
  all: split; [apply Z.ltb_ge in R; lia|].
  all: split; [discriminate|].
  all: split; [assumption|].
  all: split; [assumption|]; tauto.
Qed.

(** X30. For a configuration that [validate] accepts, [ToAppConfig]
    never falls back to the default environment: the environment of the
    result is the one the configuration names. *)
Theorem validated_env_is_kept j :
  Appconf.validate Clean Separator ToLower j = None ->
  (cfg_Env (Appconf.ToAppConfig j) = Development <-> Env j = "development")
  /\ (cfg_Env (Appconf.ToAppConfig j) = Test <-> Env j = "test")
  /\ (cfg_Env (Appconf.ToAppConfig j) = Production
      <-> Env j = "production").
Proof.
  unfold validate.
  destruct ((Port j <? 1) || (Port j >? 65535)); [discriminate|].
  destruct (String.eqb (Env j) "development" || String.eqb (Env j) "test"
            || String.eqb (Env j) "production") eqn:E; [|discriminate].
  intros _. unfold ToAppConfig, EnvFlagToEnvironment. cbn [cfg_Env].
  destruct (String.eqb_spec (Env j) "development") as [-> | N1].
  { repeat split; try discriminate; reflexivity. }
  destruct (String.eqb_spec (Env j) "test") as [-> | N2].
  { repeat split; try discriminate; reflexivity. }
  destruct (String.eqb_spec (Env j) "production") as [-> | N3].
  { repeat split; try discriminate; reflexivity. }
  discriminate.
Qed.

End PlatformSpec.

Lemma validated_config_is_sound_witness :
  1 <= Port (setDefaults Sample.blank) <= 65535
  /\ In (Env (setDefaults Sample.blank)) ["development"; "test"; "production"]
  /\ 1 <= RateLimit (setDefaults Sample.blank)
  /\ ApiKeys (setDefaults Sample.blank) <> []
  /\ NoDup (ApiKeys (setDefaults Sample.blank))
  /\ ~ In "" (ApiKeys (setDefaults Sample.blank))
  /\ (AuthHeaderName (StaticFeed (setDefaults Sample.blank)) = ""
      <-> AuthHeaderValue (StaticFeed (setDefaults Sample.blank)) = "").
Proof.
  apply (validated_config_is_sound (fun p => p) "/" (fun s => s)
           (setDefaults Sample.blank)).
  reflexivity.
Defined.

Lemma validated_env_is_kept_witness :
  (cfg_Env (Appconf.ToAppConfig (setDefaults Sample.blank)) = Development
   <-> Env (setDefaults Sample.blank) = "development")
  /\ (cfg_Env (Appconf.ToAppConfig (setDefaults Sample.blank)) = Test
      <-> Env (setDefaults Sample.blank) = "test")
  /\ (cfg_Env (Appconf.ToAppConfig (setDefaults Sample.blank)) = Production
      <-> Env (setDefaults Sample.blank) = "production").
Proof.
  apply (validated_env_is_kept (fun p => p) "/" (fun s => s)
           (setDefaults Sample.blank)).
  reflexivity.
Defined.

End AppconfSpec.
